(** * @singleware/application: the request-dispatch core of [Main]

    A shallow embedding of [source/main.ts]: the notification hub
    ([notifyRequest], [notifyAction]), handler invocation
    ([performHandler]), the filter pass ([performFilters]), the processor
    pass ([receiveHandler]), route installation ([addHandler]) and the
    lifecycle operations ([addService], [addLogger], [start], [stop]).

    JavaScript objects that the code mutates in place (the request, the
    application instance) are threaded as explicit state; calls into
    collaborators (loggers, services, user handlers) are recorded in an event
    log so that ordering and "never invoked" properties can be stated. *)

From stdpp Require Import base strings gmap list.

(** ** JavaScript values *)

(** The values the pipeline inspects or passes along: handler results are
    compared with [=== true], thrown values are stored in [detail.error]. *)
Inductive JsValue : Type :=
| VUndefined
| VBool (b : bool)
| VNum (n : Z)
| VStr (s : string)
| VError (message : string).

(** [Aliases.Variables]: a plain object used as a string-keyed map. *)
Abbreviation Variables := (gmap string JsValue).

(** Object spread [{...a, ...b, ...c}] is [object_spread [a; b; c]]: the
    properties of later operands overwrite those of earlier ones. *)
Definition object_spread (operands : list Variables) : Variables :=
  foldl (fun acc o => o ∪ acc) ∅ operands.

(** Exceptions raised while [Main] runs: the errors it constructs itself,
    and the type error the engine raises when [property] is read from
    [undefined] (its wording is the engine's, so only the property is
    kept). *)
Inductive Exception : Type :=
| JsError (message : string)
| JsTypeError (message : string)
| JsReadOfUndefined (property : string).

(** ** The enumerations of [./types] *)

(** Modelled from the spec: [types.ts] is not part of the sources at hand.
    The spec names the members ([Receive], [Process], [Send], [Error] for
    request notifications, start and stop for actions, filter and processor
    for routes). At run time nothing keeps a value outside the members away
    (a cast, a caller written in JavaScript), which is what the [default:]
    branches of [main.ts] guard against; the last constructor of each
    enumeration stands for such a value, kept as the text a template string
    renders it to, which is all the code does with it. *)
Module Types.

Inductive Request : Type :=
| Receive | Process | Send | Error
| UnsupportedRequest (rendered : string).

Inductive Action : Type :=
| Start | Stop
| UnsupportedAction (rendered : string).

Inductive Route : Type :=
| Filter | Processor
| UnsupportedRoute (rendered : string).

End Types.

(** ** Data model *)

(** [action.ts]. The constraint is opaque to [Main]; it is kept as the
    table of per-variable patterns it is. *)
Record Action : Type := {
  action_path : string;
  exact : option bool;
  constraint : option (gmap string string);
  action_environment : option Variables
}.

(** Modelled from the spec: [environment.ts] and [request.ts] are not part
    of the sources at hand. Only the members [main.ts] touches are kept:
    [path], [environment.local], [granted], [error], and the payload
    [input]/[output] that handlers work on. [granted] may be absent, which is
    why [performFilters] ends in [request.granted || false]. *)
Record Environment : Type := {
  local : Variables
}.

Record Request : Type := {
  path : string;
  input : JsValue;
  output : JsValue;
  environment : Environment;
  granted : option bool;
  error : option JsValue
}.

Definition set_local (l : Variables) (r : Request) : Request :=
  {| path := path r; input := input r; output := output r;
     environment := {| local := l |};
     granted := granted r; error := error r |}.

Definition set_granted (g : option bool) (r : Request) : Request :=
  {| path := path r; input := input r; output := output r;
     environment := environment r;
     granted := g; error := error r |}.

Definition set_error (e : option JsValue) (r : Request) : Request :=
  {| path := path r; input := input r; output := output r;
     environment := environment r;
     granted := granted r; error := e |}.

(** JavaScript truthiness of [request.granted]. *)
Definition truthy (g : option bool) : bool := default false g.

(** How a call into user code completes. *)
Inductive Completion : Type :=
| Returns (v : JsValue)
| Throws (e : JsValue).

(** A handler class ([Aliases.Constructor]). [construct_and_call parameters
    method variables detail] is [new handler(...parameters)[method](match)]
    awaited: user code that sees the match (its variables and its detail,
    which is the request object itself), may mutate the request in any way,
    and either returns a value or throws. *)
Record Constructor : Type := {
  constructor_id : nat;
  construct_and_call :
    list JsValue -> string -> Variables -> Request -> Completion * Request
}.

(** [route.ts] as [main.ts] uses it. *)
Record Route : Type := {
  type : Types.Route;
  action : Action;
  method : string
}.

(** Loggers and services are collaborators identified by name; every call
    the application makes on them is recorded as an [Event]. The spec treats
    them as sinks behind fixed contracts, so their methods return normally. *)
Record Logger : Type := { logger_name : string }.
Record Service : Type := { service_name : string }.

Inductive Channel : Type := OnReceiveChannel | OnSendChannel | OnErrorChannel.

Inductive Event : Type :=
| LoggerOnReceive (logger : Logger) (copy : Request)
| LoggerOnProcess (logger : Logger) (copy : Request)
| LoggerOnSend (logger : Logger) (copy : Request)
| LoggerOnError (logger : Logger) (copy : Request)
| LoggerOnStart (logger : Logger)
| LoggerOnStop (logger : Logger)
| HandlerCall (handler : nat) (method : string) (parameters : list JsValue)
              (variables : Variables) (detail : Request)
| Subscribe (service : Service) (channel : Channel)
| Unsubscribe (service : Service) (channel : Channel)
| ServiceStart (service : Service)
| ServiceStop (service : Service).

(** ** A state and exception monad *)

Inductive Outcome (A : Type) : Type :=
| Normal (a : A)
| Thrown (e : Exception).
Arguments Normal {A} a.
Arguments Thrown {A} e.

(** A computation over a mutable state [S] that returns or throws; the state
    reached when it throws is kept, as in JavaScript. *)
Definition M (S A : Type) : Type := S -> Outcome A * S.

Definition ret {S A} (a : A) : M S A := fun s => (Normal a, s).
Definition throw {S A} (e : Exception) : M S A := fun s => (Thrown e, s).
Definition bind {S A B} (c : M S A) (k : A -> M S B) : M S B :=
  fun s => match c s with
           | (Normal a, s') => k a s'
           | (Thrown e, s') => (Thrown e, s')
           end.
Definition gets {S A} (f : S -> A) : M S A := fun s => (Normal (f s), s).
Definition modify {S} (f : S -> S) : M S unit := fun s => (Normal tt, f s).

Notation "'let*' x ':=' c 'in' k" := (bind c (fun x => k))
  (at level 10, x name, c at level 100, k at level 200).
Notation "c1 ;;; c2" := (bind c1 (fun _ => c2))
  (at level 100, c2 at level 200, right associativity).

(** [for (const x of xs) body(x)]: stops at the first exception. *)
Fixpoint for_of {S A} (xs : list A) (body : A -> M S unit) : M S unit :=
  match xs with
  | [] => ret tt
  | x :: xs' => body x ;;; for_of xs' body
  end.

(** [try { ... } finally { return result; }]: the [return] in the [finally]
    block discards a pending exception, the state changes stay. *)
Definition finally_return {S A B} (c : M S A) (result : B) : M S B :=
  fun s => (Normal result, snd (c s)).

(** ** The router, as [Main] consumes it *)

(** The closures [addHandler] installs as [onMatch], kept as data: each
    captures the handler class, the route's method name and the constructor
    parameters. *)
Inductive Callback : Type :=
| FilterOnMatch (handler : Constructor) (method : string)
                (parameters : list JsValue)
| ProcessorOnMatch (handler : Constructor) (method : string)
                   (parameters : list JsValue).

(** What [Router.add] receives: the action's members and [onMatch]. *)
Record RouterEntry : Type := {
  settings : Action;
  onMatch : Callback
}.

(** One candidate of a match sequence: the variables [match.variables]
    shows while it is the current one, and the callback [match.next()]
    invokes for it. *)
Record Candidate : Type := {
  variables : Variables;
  candidate_onMatch : Callback
}.

(** Modelled from the spec: the path matcher ([@singleware/routing]) is an
    external collaborator, a black box with [add(action, onMatch)] and
    [match(path, request)], the latter yielding an ordered sequence of
    candidates with [length] (the number left), [variables] (of the current
    one) and [next()] (invoke the current one's callback and advance). Which
    entries match a path, in which order and with which variables is the
    matcher's business: [matcher] is that black box, fixed by the settings
    the router is built from. The request passed to [match] is only carried
    along as the detail every callback receives. *)
Record Router : Type := {
  entries : list RouterEntry;
  matcher : list RouterEntry -> string -> list Candidate
}.

Definition Router_new (settings : list RouterEntry -> string -> list Candidate)
  : Router :=
  {| entries := []; matcher := settings |}.

Definition Router_add (r : Router) (e : RouterEntry) : Router :=
  {| entries := entries r ++ [e]; matcher := matcher r |}.

Definition Router_match (r : Router) (p : string) : list Candidate :=
  matcher r (entries r) p.

(** ** The application instance *)

(** The private members of [Main] and the protected [filterHandler] hook a
    subclass may override (it sees the match and the handler's verdict and
    answers with a boolean). [processHandler] is modelled by its body in
    [Main]. *)
Record Main : Type := {
  started : bool;
  services : list Service;
  loggers : list Logger;
  filters : Router;
  processors : Router;
  filterHandler : Variables -> Request -> bool -> bool
}.

(** [Main.filterHandler]: [return allows]. *)
Definition Main_filterHandler (variables : Variables) (detail : Request)
  (allows : bool) : bool := allows.

(** [constructor(settings)] with the field initialisers. *)
Definition Main_new (settings : list RouterEntry -> string -> list Candidate)
  : Main :=
  {| started := false;
     services := [];
     loggers := [];
     filters := Router_new settings;
     processors := Router_new settings;
     filterHandler := Main_filterHandler |}.

(** The state of one dispatch: the request object every match shares as its
    detail, and the log of calls made on collaborators. *)
Record Dispatch : Type := {
  request : Request;
  dispatch_log : list Event
}.

Definition emit (e : Event) : M Dispatch unit :=
  modify (fun d => {| request := request d;
                      dispatch_log := dispatch_log d ++ [e] |}).

Definition update_request (f : Request -> Request) : M Dispatch unit :=
  modify (fun d => {| request := f (request d);
                      dispatch_log := dispatch_log d |}).

(** ** Notification hub *)

Definition unsupported_request_message (rendered : string) : string :=
  "Request type '" +:+ rendered +:+ "' doesn't supported.".

Definition unsupported_action_message (rendered : string) : string :=
  "Action type '" +:+ rendered +:+ "' doesn't supported.".

(** [notifyRequest(type, request)]. The copy [Object.freeze({...request})]
    is taken once, before the loop, and is the value every logger is handed;
    the [switch] sits inside the loop. *)
Definition notifyRequest (this : Main) (type : Types.Request)
  (request_ : Request) : M Dispatch unit :=
  let copy := request_ in
  for_of (loggers this) (fun logger =>
    match type with
    | Types.Receive => emit (LoggerOnReceive logger copy)
    | Types.Process => emit (LoggerOnProcess logger copy)
    | Types.Send => emit (LoggerOnSend logger copy)
    | Types.Error => emit (LoggerOnError logger copy)
    | Types.UnsupportedRequest n =>
        throw (JsTypeError (unsupported_request_message n))
    end).

(** ** Dispatch pipeline *)

(** [new handler(...parameters)[method](match)], awaited: the call is logged
    with the detail as the handler finds it, then the user code runs. *)
Definition invoke (handler : Constructor) (method : string)
  (parameters : list JsValue) (variables : Variables)
  : M Dispatch Completion :=
  fun d =>
    let '(completion, detail) :=
      construct_and_call handler parameters method variables (request d) in
    (Normal completion,
     {| request := detail;
        dispatch_log :=
          dispatch_log d ++
          [HandlerCall (constructor_id handler) method parameters variables
                       (request d)] |}).

(** [performHandler(handler, method, parameters, match)]. [result] stays
    [undefined] when the [try] block throws. *)
Definition performHandler (this : Main) (handler : Constructor)
  (method : string) (parameters : list JsValue) (variables : Variables)
  : M Dispatch JsValue :=
  let* completion := invoke handler method parameters variables in
  match completion with
  | Returns result => ret result
  | Throws error =>
      finally_return
        (update_request (set_error (Some error)) ;;;
         let* detail := gets request in
         notifyRequest this Types.Error detail)
        VUndefined
  end.

(** [Main.processHandler]: [await callback(match)]. *)
Definition processHandler (variables : Variables)
  (callback : Variables -> M Dispatch JsValue) : M Dispatch unit :=
  callback variables ;;; ret tt.

(** [value === true]. *)
Definition strict_equals_true (value : JsValue) : bool :=
  match value with
  | VBool true => true
  | _ => false
  end.

(** The two [onMatch] closures of [addHandler]. *)
Definition run_onMatch (this : Main) (callback : Callback)
  (variables : Variables) : M Dispatch unit :=
  match callback with
  | FilterOnMatch handler method parameters =>
      let* result := performHandler this handler method parameters variables in
      let allows := strict_equals_true result in
      let* detail := gets request in
      let hook := filterHandler this variables detail allows in
      update_request (set_granted (Some (hook && allows)))
  | ProcessorOnMatch handler method parameters =>
      processHandler variables
        (performHandler this handler method parameters)
  end.

(** [match.next()] on a sequence whose current candidate is [c]. *)
Definition next (this : Main) (c : Candidate) : M Dispatch unit :=
  run_onMatch this (candidate_onMatch c) (variables c).

(** The [while (request.granted && match.length)] loop of [performFilters]
    and its [return request.granted || false], over the candidates left;
    [performFilters_body] is one turn of the loop. *)
Definition performFilters_body (this : Main) (seed local_ : Variables)
  (c : Candidate) : M Dispatch unit :=
  update_request (set_local (object_spread [seed; variables c; local_])) ;;;
  next this c ;;;
  update_request (set_local local_).

Fixpoint performFilters_loop (this : Main) (seed local_ : Variables)
  (match_ : list Candidate) : M Dispatch bool :=
  let* granted_ := gets (fun d => granted (request d)) in
  match match_ with
  | c :: rest =>
      if truthy granted_ then
        performFilters_body this seed local_ c ;;;
        performFilters_loop this seed local_ rest
      else ret (truthy granted_ || false)
  | [] => ret (truthy granted_ || false)
  end.

(** [performFilters(request, variables)]. *)
Definition performFilters (this : Main) (seed : Variables)
  : M Dispatch bool :=
  let* local_ := gets (fun d => local (environment (request d))) in
  let* path_ := gets (fun d => path (request d)) in
  let match_ := Router_match (filters this) path_ in
  performFilters_loop this seed local_ match_.

(** The [while (match.length && (await this.performFilters(...)))] loop of
    [receiveHandler], over the candidates left; [receiveHandler_body] is one
    turn of the loop. *)
Definition receiveHandler_body (this : Main) (local_ : Variables)
  (c : Candidate) : M Dispatch unit :=
  update_request (set_local (object_spread [variables c; local_])) ;;;
  next this c ;;;
  update_request (set_local local_).

Fixpoint receiveHandler_loop (this : Main) (local_ : Variables)
  (match_ : list Candidate) : M Dispatch unit :=
  match match_ with
  | c :: rest =>
      let* passed := performFilters this (variables c) in
      if passed then
        receiveHandler_body this local_ c ;;;
        receiveHandler_loop this local_ rest
      else ret tt
  | [] => ret tt
  end.

(** [receiveHandler(request)]. *)
Definition receiveHandler (this : Main) : M Dispatch unit :=
  let* request_ := gets request in
  notifyRequest this Types.Receive request_ ;;;
  let* local_ := gets (fun d => local (environment (request d))) in
  let* path_ := gets (fun d => path (request d)) in
  let match_ := Router_match (processors this) path_ in
  receiveHandler_loop this local_ match_ ;;;
  let* request_ := gets request in
  notifyRequest this Types.Process request_.

(** [sendHandler(request)] and [errorHandler(request)]. *)
Definition sendHandler (this : Main) : M Dispatch unit :=
  let* request_ := gets request in
  notifyRequest this Types.Send request_.

Definition errorHandler (this : Main) : M Dispatch unit :=
  let* request_ := gets request in
  notifyRequest this Types.Error request_.

(** ** Route table, route installation and lifecycle *)

(** What the configuration methods work on: the static [Main.routes] table
    (keyed by handler class), the application instance [this], and the log of
    calls made on loggers and services. *)
Record Runtime : Type := {
  Main_routes : gmap nat (list Route);
  this : Main;
  runtime_log : list Event
}.

Definition log (e : Event) : M Runtime unit :=
  modify (fun w => {| Main_routes := Main_routes w; this := this w;
                      runtime_log := runtime_log w ++ [e] |}).

Definition update_this (f : Main -> Main) : M Runtime unit :=
  modify (fun w => {| Main_routes := Main_routes w; this := f (this w);
                      runtime_log := runtime_log w |}).

Definition set_started (b : bool) (m : Main) : Main :=
  {| started := b; services := services m; loggers := loggers m;
     filters := filters m; processors := processors m;
     filterHandler := filterHandler m |}.

Definition push_service (s : Service) (m : Main) : Main :=
  {| started := started m; services := services m ++ [s];
     loggers := loggers m;
     filters := filters m; processors := processors m;
     filterHandler := filterHandler m |}.

Definition push_logger (l : Logger) (m : Main) : Main :=
  {| started := started m; services := services m;
     loggers := loggers m ++ [l];
     filters := filters m; processors := processors m;
     filterHandler := filterHandler m |}.

Definition filters_add (e : RouterEntry) (m : Main) : Main :=
  {| started := started m; services := services m; loggers := loggers m;
     filters := Router_add (filters m) e; processors := processors m;
     filterHandler := filterHandler m |}.

Definition processors_add (e : RouterEntry) (m : Main) : Main :=
  {| started := started m; services := services m; loggers := loggers m;
     filters := filters m; processors := Router_add (processors m) e;
     filterHandler := filterHandler m |}.

(** [Main.addRoute(handler, route)]: the list is created on first use. *)
Definition addRoute (handler : Constructor) (route : Route)
  : M Runtime unit :=
  modify (fun w =>
    let list_ := default [] (Main_routes w !! constructor_id handler) in
    {| Main_routes :=
         <[constructor_id handler := list_ ++ [route]]> (Main_routes w);
       this := this w;
       runtime_log := runtime_log w |}).

(** The [descriptor] a member decorator receives: [undefined] for a
    decorated field (the compiled class passes [void 0]), otherwise the
    property descriptor of the member, of which the decorators only ask
    whether its [value] is a function (it is for a method, it is not for an
    accessor). *)
Inductive Descriptor : Type :=
| NoDescriptor
| ValueDescriptor (value_is_function : bool).

(** [Main.Filter(action)] and [Main.Processor(action)] applied to a member
    [property] of [handler]. Reading [descriptor.value] comes first, so an
    undefined descriptor fails in the engine before the check is made. *)
Definition Filter (action_ : Action) (handler : Constructor)
  (property : string) (descriptor : Descriptor) : M Runtime unit :=
  match descriptor with
  | NoDescriptor => throw (JsReadOfUndefined "value")
  | ValueDescriptor false =>
      throw (JsTypeError "Only methods are allowed as filters.")
  | ValueDescriptor true =>
      addRoute handler
        {| type := Types.Filter; action := action_; method := property |}
  end.

Definition Processor (action_ : Action) (handler : Constructor)
  (property : string) (descriptor : Descriptor) : M Runtime unit :=
  match descriptor with
  | NoDescriptor => throw (JsReadOfUndefined "value")
  | ValueDescriptor false =>
      throw (JsTypeError "Only methods are allowed as processors.")
  | ValueDescriptor true =>
      addRoute handler
        {| type := Types.Processor; action := action_; method := property |}
  end.

(** [notifyAction(type)]; as in [notifyRequest] the [switch] sits inside
    the loop over the loggers. *)
Definition notifyAction (type_ : Types.Action) : M Runtime unit :=
  let* loggers_ := gets (fun w => loggers (this w)) in
  for_of loggers_ (fun logger =>
    match type_ with
    | Types.Start => log (LoggerOnStart logger)
    | Types.Stop => log (LoggerOnStop logger)
    | Types.UnsupportedAction n =>
        throw (JsTypeError (unsupported_action_message n))
    end).

(** [{...route.action, onMatch}] for a filter route. *)
Definition filter_entry (route : Route) (handler : Constructor)
  (parameters : list JsValue) : RouterEntry :=
  {| settings := action route;
     onMatch := FilterOnMatch handler (method route) parameters |}.

(** [{...route.action, exact: ..., onMatch}] for a processor route. *)
Definition processor_entry (route : Route) (handler : Constructor)
  (parameters : list JsValue) : RouterEntry :=
  {| settings :=
       {| action_path := action_path (action route);
          exact := match exact (action route) with
                   | None => Some true
                   | Some declared => Some declared
                   end;
          constraint := constraint (action route);
          action_environment := action_environment (action route) |};
     onMatch := ProcessorOnMatch handler (method route) parameters |}.

Definition unsupported_route_message (rendered : string) : string :=
  "Unsupported route type " +:+ rendered.

(** [addHandler(handler, ...parameters)]. The instance it returns is the
    [this] of the runtime it leaves; the same holds for [start] and [stop]. *)
Definition addHandler (handler : Constructor) (parameters : list JsValue)
  : M Runtime unit :=
  let* started_ := gets (fun w => started (this w)) in
  if started_ then
    throw (JsError "To add new handlers the application must be stopped.")
  else
    let* routes :=
      gets (fun w => default [] (Main_routes w !! constructor_id handler)) in
    for_of routes (fun route =>
      match type route with
      | Types.Filter =>
          update_this (filters_add (filter_entry route handler parameters))
      | Types.Processor =>
          update_this
            (processors_add (processor_entry route handler parameters))
      | Types.UnsupportedRoute n =>
          throw (JsTypeError (unsupported_route_message n))
      end).

(** [addService(service, ...parameters)]: [service] is either a class, which
    is instantiated with the parameters, or an instance. *)
Definition addService (service : (list JsValue -> Service) + Service)
  (parameters : list JsValue) : M Runtime Service :=
  let* started_ := gets (fun w => started (this w)) in
  if started_ then
    throw (JsError "To add new services the application must be stopped.")
  else
    let service_ := match service with
                    | inl new_service => new_service parameters
                    | inr instance => instance
                    end in
    update_this (push_service service_) ;;;
    ret service_.

(** [addLogger(logger, ...parameters)]. *)
Definition addLogger (logger : (list JsValue -> Logger) + Logger)
  (parameters : list JsValue) : M Runtime Logger :=
  let* started_ := gets (fun w => started (this w)) in
  if started_ then
    throw
      (JsError "To add new loggers service the application must be stopped.")
  else
    let logger_ := match logger with
                   | inl new_logger => new_logger parameters
                   | inr instance => instance
                   end in
    update_this (push_logger logger_) ;;;
    ret logger_.

(** [start()]. *)
Definition start : M Runtime unit :=
  let* started_ := gets (fun w => started (this w)) in
  if started_ then
    throw (JsError "Application was already started.")
  else
    notifyAction Types.Start ;;;
    let* services_ := gets (fun w => services (this w)) in
    for_of services_ (fun service =>
      log (Subscribe service OnReceiveChannel) ;;;
      log (Subscribe service OnSendChannel) ;;;
      log (Subscribe service OnErrorChannel) ;;;
      log (ServiceStart service)) ;;;
    update_this (set_started true).

(** [stop()]. *)
Definition stop : M Runtime unit :=
  let* started_ := gets (fun w => started (this w)) in
  if negb started_ then
    throw (JsError "Application wasn't started.")
  else
    let* services_ := gets (fun w => services (this w)) in
    for_of services_ (fun service =>
      log (ServiceStop service) ;;;
      log (Unsubscribe service OnReceiveChannel) ;;;
      log (Unsubscribe service OnSendChannel) ;;;
      log (Unsubscribe service OnErrorChannel)) ;;;
    update_this (set_started false) ;;;
    notifyAction Types.Stop.

(** Every registered route is a filter or a processor. [Main.routes] is
    private and written by [Main.Filter] and [Main.Processor] only, so this
    holds of every table a program can build. *)
Definition routes_supported (w : Runtime) : Prop :=
  forall h rs,
    Main_routes w !! h = Some rs ->
    Forall (fun r => type r = Types.Filter \/ type r = Types.Processor) rs.

Definition is_filter (r : Route) : bool :=
  match type r with Types.Filter => true | _ => false end.

Definition is_processor (r : Route) : bool :=
  match type r with Types.Processor => true | _ => false end.

(** An action with its [exact] member replaced. *)
Definition with_exact (e : option bool) (a : Action) : Action :=
  {| action_path := action_path a; exact := e;
     constraint := constraint a;
     action_environment := action_environment a |}.

(** A processor candidate whose handler leaves [request.granted] and
    [request.path] as it finds them. *)
Definition keeps_access (c : Candidate) : Prop :=
  exists h m ps,
    candidate_onMatch c = ProcessorOnMatch h m ps /\
    forall vs r,
      granted (snd (construct_and_call h ps m vs r)) = granted r /\
      path (snd (construct_and_call h ps m vs r)) = path r.

(** The runtime after more calls on loggers and services. *)
Definition logged (w : Runtime) (evs : list Event) : Runtime :=
  {| Main_routes := Main_routes w; this := this w;
     runtime_log := runtime_log w ++ evs |}.

(** What [addHandler] does with one supported route. *)
Definition install_route (handler : Constructor) (parameters : list JsValue)
  (m : Main) (r : Route) : Main :=
  match type r with
  | Types.Filter => filters_add (filter_entry r handler parameters) m
  | Types.Processor => processors_add (processor_entry r handler parameters) m
  | Types.UnsupportedRoute _ => m
  end.

(** The calls [start] and [stop] make on one service. *)
Definition start_service (s : Service) : list Event :=
  [Subscribe s OnReceiveChannel; Subscribe s OnSendChannel;
   Subscribe s OnErrorChannel; ServiceStart s].

Definition stop_service (s : Service) : list Event :=
  [ServiceStop s; Unsubscribe s OnReceiveChannel;
   Unsubscribe s OnSendChannel; Unsubscribe s OnErrorChannel].

(** ** A small application for concrete runs *)

(** A matcher in the style of the router: an entry matches a path equal to
    its own and, unless it is exact, every path its own is a prefix of; the
    candidate's variables are the entry's static environment. Candidates come
    in registration order. *)
Definition example_matcher (es : list RouterEntry) (p : string)
  : list Candidate :=
  omap (fun e =>
          let a := settings e in
          let hit := if default false (exact a)
                     then String.eqb (action_path a) p
                     else String.prefix (action_path a) p in
          if hit
          then Some {| variables := default ∅ (action_environment a);
                       candidate_onMatch := onMatch e |}
          else None) es.

(** A class of access filters: [allow] returns [true], [deny] returns
    [false], [fail] throws, anything else returns nothing. *)
Definition Gate : Constructor :=
  {| constructor_id := 1;
     construct_and_call := fun _ method_ _ detail =>
       if String.eqb method_ "allow" then (Returns (VBool true), detail)
       else if String.eqb method_ "deny" then (Returns (VBool false), detail)
       else if String.eqb method_ "fail" then (Throws (VError "boom"), detail)
       else (Returns VUndefined, detail) |}.

(** A class of processors: [view] writes ["ok"] to the output, [crash]
    throws, [revoke] clears [granted]. *)
Definition Page : Constructor :=
  {| constructor_id := 2;
     construct_and_call := fun _ method_ _ detail =>
       if String.eqb method_ "view" then
         (Returns VUndefined,
          {| path := path detail; input := input detail;
             output := VStr "ok"; environment := environment detail;
             granted := granted detail; error := error detail |})
       else if String.eqb method_ "crash" then
         (Throws (VError "crashed"), detail)
       else if String.eqb method_ "revoke" then
         (Returns VUndefined, set_granted (Some false) detail)
       else (Returns VUndefined, detail) |}.

(** The descriptor of a method. *)
Definition is_method : Descriptor := ValueDescriptor true.

Definition on_path (p : string) (e : option bool) (vs : option Variables)
  : Action :=
  {| action_path := p; exact := e; constraint := None;
     action_environment := vs |}.

Definition console : Logger := {| logger_name := "console" |}.
Definition http : Service := {| service_name := "http" |}.

Definition fresh : Runtime :=
  {| Main_routes := ∅; this := Main_new example_matcher; runtime_log := [] |}.

(** Runs configuration steps one after the other, whatever they return. *)
Definition configure (steps : list (M Runtime unit)) (w : Runtime) : Runtime :=
  foldl (fun w step => snd (step w)) w steps.

Definition install (handlers : list Constructor) : list (M Runtime unit) :=
  map (fun h => addHandler h []) handlers ++
  [addLogger (inr console) [] ;;; ret tt].

(** No filter; one processor on [/a]. *)
Definition open_app : Runtime :=
  configure
    (Processor (on_path "/a" None (Some {["page" := VStr "a"]}))
       Page "view" is_method
     :: install [Page]) fresh.

(** Filters [deny] then [allow] on [/a], and one processor on [/a]. *)
Definition denying_app : Runtime :=
  configure
    (Filter (on_path "/a" (Some false) None) Gate "deny" is_method
     :: Filter (on_path "/a" (Some false) None) Gate "allow" is_method
     :: Processor (on_path "/a" None None) Page "view" is_method
     :: install [Gate; Page]) fresh.



Definition request_for (p : string) (g : option bool) : Request :=
  {| path := p; input := VUndefined; output := VUndefined;
     environment := {| local := {["user" := VStr "ann"]} |};
     granted := g; error := None |}.

Definition incoming (r : Request) : Dispatch :=
  {| request := r; dispatch_log := [] |}.

(** The candidates the example applications yield for [/a]. *)
Definition deny_candidate : Candidate :=
  {| variables := ∅; candidate_onMatch := FilterOnMatch Gate "deny" [] |}.
Definition allow_candidate : Candidate :=
  {| variables := ∅; candidate_onMatch := FilterOnMatch Gate "allow" [] |}.
Definition view_candidate : Candidate :=
  {| variables := ∅; candidate_onMatch := ProcessorOnMatch Page "view" [] |}.
Definition paged_view_candidate : Candidate :=
  {| variables := {["page" := VStr "a"]};
     candidate_onMatch := ProcessorOnMatch Page "view" [] |}.

(** A runtime in which [Gate] carries three decorated members and no
    handler has been added yet. *)
Definition decorated : Runtime :=
  configure
    [Filter (on_path "/" (Some false) None) Gate "allow" is_method;
     Processor (on_path "/a" None None) Gate "view" is_method;
     Processor (on_path "/b" (Some false) None) Gate "list" is_method] fresh.

(** ** Reading the event log *)

(** The notifications one [notifyRequest] call with a supported type hands
    to the loggers: one per logger, in registration order, all carrying the
    same copy. *)
Definition notifications (type_ : Types.Request) (copy : Request)
  (ls : list Logger) : list Event :=
  match type_ with
  | Types.Receive => map (fun l => LoggerOnReceive l copy) ls
  | Types.Process => map (fun l => LoggerOnProcess l copy) ls
  | Types.Send => map (fun l => LoggerOnSend l copy) ls
  | Types.Error => map (fun l => LoggerOnError l copy) ls
  | Types.UnsupportedRequest _ => []
  end.

Definition supported (type_ : Types.Request) : bool :=
  match type_ with
  | Types.UnsupportedRequest _ => false
  | _ => true
  end.

(** The handler methods called, in order: class, method, constructor
    parameters and the variables of the match. *)
Definition handler_calls (evs : list Event)
  : list (nat * string * list JsValue * Variables) :=
  omap (fun e => match e with
                 | HandlerCall h m ps vs _ => Some (h, m, ps, vs)
                 | _ => None
                 end) evs.

(** The call [match.next()] makes for a candidate. *)
Definition call_of (c : Candidate)
  : nat * string * list JsValue * Variables :=
  match candidate_onMatch c with
  | FilterOnMatch h m ps => (constructor_id h, m, ps, variables c)
  | ProcessorOnMatch h m ps => (constructor_id h, m, ps, variables c)
  end.

Definition call_event (c : Candidate) (detail : Request) : Event :=
  match candidate_onMatch c with
  | FilterOnMatch h m ps =>
      HandlerCall (constructor_id h) m ps (variables c) detail
  | ProcessorOnMatch h m ps =>
      HandlerCall (constructor_id h) m ps (variables c) detail
  end.

Definition is_error_notification (e : Event) : Prop :=
  match e with
  | LoggerOnError _ _ => True
  | _ => False
  end.

(** Events of the dispatch loops: handler calls, whose detail satisfies
    [P], and error notifications. *)
Definition pipeline_event (P : Variables -> Request -> Prop) (e : Event)
  : Prop :=
  match e with
  | HandlerCall _ _ _ vs detail => P vs detail
  | LoggerOnError _ _ => True
  | _ => False
  end.

Definition extend (d : Dispatch) (r : Request) (evs : list Event)
  : Dispatch :=
  {| request := r; dispatch_log := dispatch_log d ++ evs |}.




(** A member decoration: [true] for [@Filter(action)], [false] for
    [@Processor(action)], with the action and the name of the decorated
    method. *)
Definition decoration_route (x : bool * Action * string) : Route :=
  {| type := if x.1.1 then Types.Filter else Types.Processor;
     action := x.1.2;
     method := x.2 |}.

Definition decorate (handler : Constructor) (x : bool * Action * string)
  : M Runtime unit :=
  if x.1.1 then Filter x.1.2 handler x.2 (ValueDescriptor true)
  else Processor x.1.2 handler x.2 (ValueDescriptor true).

(** No filter; processors [revoke] then [view] on [/a]. *)
Definition revoking_app : Runtime :=
  configure
    (Processor (on_path "/a" None None) Page "revoke" is_method
     :: Processor (on_path "/a" None None) Page "view" is_method
     :: install [Page]) fresh.

Definition revoke_candidate : Candidate :=
  {| variables := ∅; candidate_onMatch := ProcessorOnMatch Page "revoke" [] |}.

(** An event of the filter pass run with the seed [seed] over the local
    environment [local_]: a handler call that finds
    [{...seed, ...match.variables, ...local}], or an error notification. *)
Definition filter_scoped (seed local_ : Variables) (e : Event) : Prop :=
  match e with
  | HandlerCall _ _ _ vs detail =>
      local (environment detail) = object_spread [seed; vs; local_]
  | LoggerOnError _ _ => True
  | _ => False
  end.

(** The events of the processor loop over the candidates [cs], turn by
    turn: for the candidate [c] first the events of its filter pass, seeded
    with the variables of [c]; then either nothing more (the pass denied), or
    the call of [c] itself, which finds [{...match.variables, ...local}],
    its error notifications, and the events of the candidates after it. *)
Fixpoint scoped_turns (local_ : Variables) (cs : list Candidate)
  (evs : list Event) : Prop :=
  match cs with
  | [] => evs = []
  | c :: rest =>
      exists filter_events tail,
        evs = filter_events ++ tail
        /\ Forall (filter_scoped (variables c) local_) filter_events
        /\ (tail = []
            \/ exists detail errs evs',
                 tail = call_event c detail :: errs ++ evs'
                 /\ local (environment detail)
                    = object_spread [variables c; local_]
                 /\ Forall is_error_notification errs
                 /\ scoped_turns local_ rest evs')
  end.

(** * Basic facts *)

Lemma extend_nil d : extend d (request d) [] = d.
Proof. destruct d; unfold extend; simpl. by rewrite app_nil_r. Qed.

Lemma extend_extend d r1 evs1 r2 evs2 :
  extend (extend d r1 evs1) r2 evs2 = extend d r2 (evs1 ++ evs2).
Proof. unfold extend; simpl. by rewrite app_assoc. Qed.

Lemma bind_normal {S A B} (c : M S A) (k : A -> M S B) s a s' :
  c s = (Normal a, s') -> bind c k s = k a s'.
Proof. intros H. unfold bind. by rewrite H. Qed.

Lemma for_of_emit {A} (f : A -> Event) (xs : list A) d :
  for_of xs (fun x => emit (f x)) d
  = (Normal tt, extend d (request d) (map f xs)).
Proof.
  revert d. induction xs as [|x xs IH]; intros d; simpl.
  - unfold ret. by rewrite extend_nil.
  - unfold bind at 1. unfold emit at 1, modify. rewrite IH.
    unfold extend; simpl. by rewrite <- app_assoc.
Qed.

Lemma notifyRequest_supported this type_ r d :
  supported type_ = true ->
  notifyRequest this type_ r d =
  (Normal tt, extend d (request d) (notifications type_ r (loggers this))).
Proof.
  intros Hs. unfold notifyRequest.
  destruct type_; try discriminate; simpl; apply for_of_emit.
Qed.

(** The call as every handler of [Main] makes it: on the request of the
    running dispatch. *)
Lemma notify_current this type_ d :
  supported type_ = true ->
  (let* request_ := gets request in notifyRequest this type_ request_) d =
  (Normal tt,
   extend d (request d) (notifications type_ (request d) (loggers this))).
Proof. intros Hs. unfold bind, gets. by apply notifyRequest_supported. Qed.


Lemma notifyRequest_no_loggers this type_ r d :
  loggers this = [] -> notifyRequest this type_ r d = (Normal tt, d).
Proof. intros Hl. unfold notifyRequest. by rewrite Hl. Qed.

(** [performHandler] in closed form: it never throws; a throwing handler
    leaves its error in the detail and one [onError] per logger. *)
Lemma performHandler_eq this h m ps vs d :
  performHandler this h m ps vs d =
  match construct_and_call h ps m vs (request d) with
  | (Returns v, r1) =>
      (Normal v,
       extend d r1 [HandlerCall (constructor_id h) m ps vs (request d)])
  | (Throws e, r1) =>
      (Normal VUndefined,
       extend d (set_error (Some e) r1)
         (HandlerCall (constructor_id h) m ps vs (request d)
          :: notifications Types.Error (set_error (Some e) r1) (loggers this)))
  end.
Proof.
  unfold performHandler, bind at 1, invoke.
  destruct (construct_and_call h ps m vs (request d)) as [[v|e] r1]; [done|].
  unfold finally_return, bind, update_request, modify, gets.
  rewrite notifyRequest_supported by done. simpl.
  unfold extend; simpl. by rewrite <- app_assoc.
Qed.

Lemma notifications_error_only copy ls :
  Forall is_error_notification (notifications Types.Error copy ls).
Proof. simpl. induction ls; constructor; done. Qed.

Lemma notifications_no_calls type_ copy ls :
  handler_calls (notifications type_ copy ls) = [].
Proof. destruct type_; simpl; try done; induction ls; done. Qed.

(** [performHandler] as the loops see it: it returns, logs the call with
    the detail it found, and only error notifications after it. *)
Lemma performHandler_spec this h m ps vs d :
  exists v r1 errs,
    performHandler this h m ps vs d =
    (Normal v,
     extend d r1 (HandlerCall (constructor_id h) m ps vs (request d) :: errs))
    /\ Forall is_error_notification errs
    /\ (fst (construct_and_call h ps m vs (request d))
          <> Returns (VBool true) ->
        strict_equals_true v = false).
Proof.
  rewrite performHandler_eq.
  destruct (construct_and_call h ps m vs (request d)) as [[v|e] r1]; simpl.
  - exists v, r1, []. split_and!; [done|constructor|].
    intros Hne. destruct v as [|[]| | |]; simpl; congruence.
  - eexists VUndefined, _, _. split_and!; [done| |done].
    apply (notifications_error_only _ (loggers this)).
Qed.

(** Advancing a filter candidate: [granted] is overwritten with the hook's
    answer ANDed with the handler's verdict. *)
Lemma next_filter this c h m ps d :
  candidate_onMatch c = FilterOnMatch h m ps ->
  exists v r1 errs,
    next this c d =
    (Normal tt,
     extend d
       (set_granted
          (Some (filterHandler this (variables c) r1 (strict_equals_true v)
                 && strict_equals_true v)) r1)
       (call_event c (request d) :: errs))
    /\ Forall is_error_notification errs
    /\ (fst (construct_and_call h ps m (variables c) (request d))
          <> Returns (VBool true) ->
        strict_equals_true v = false).
Proof.
  intros Hc. unfold next, call_event. rewrite Hc. simpl.
  destruct (performHandler_spec this h m ps (variables c) d)
    as (v & r1 & errs & Hp & Herrs & Hv).
  exists v, r1, errs. split_and!; [|done|done].
  rewrite (bind_normal _ _ _ _ _ Hp). done.
Qed.

(** Advancing a processor candidate leaves the detail as the handler (and
    the error path of [performHandler]) left it. *)
Lemma next_processor this c h m ps d :
  candidate_onMatch c = ProcessorOnMatch h m ps ->
  next this c d =
  match construct_and_call h ps m (variables c) (request d) with
  | (Returns v, r1) => (Normal tt, extend d r1 [call_event c (request d)])
  | (Throws e, r1) =>
      (Normal tt,
       extend d (set_error (Some e) r1)
         (call_event c (request d)
          :: notifications Types.Error (set_error (Some e) r1) (loggers this)))
  end.
Proof.
  intros Hc. unfold next, call_event. rewrite Hc. simpl.
  unfold processHandler, bind. rewrite performHandler_eq.
  by destruct (construct_and_call h ps m (variables c) (request d))
    as [[v|e] r1].
Qed.

Lemma next_spec this c d :
  exists r' errs,
    next this c d = (Normal tt, extend d r' (call_event c (request d) :: errs))
    /\ Forall is_error_notification errs.
Proof.
  destruct (candidate_onMatch c) as [h m ps|h m ps] eqn:Hc.
  - destruct (next_filter this c h m ps d Hc) as (v & r1 & errs & -> & He & _).
    eauto.
  - rewrite (next_processor this c h m ps d Hc).
    destruct (construct_and_call h ps m (variables c) (request d))
      as [[v|e] r1].
    + eexists _, []. split; [done|constructor].
    + eexists _, _. split; [done|].
      apply (notifications_error_only _ (loggers this)).
Qed.

Lemma scoped_next this merged local_ c d :
  exists r' errs,
    (update_request (set_local merged) ;;;
     next this c ;;;
     update_request (set_local local_)) d =
    (Normal tt,
     extend d (set_local local_ r')
       (call_event c (set_local merged (request d)) :: errs))
    /\ Forall is_error_notification errs.
Proof.
  unfold bind at 1, update_request at 1, modify.
  set (d1 := {| request := set_local merged (request d);
                dispatch_log := dispatch_log d |}).
  destruct (next_spec this c d1) as (r' & errs & Hn & He).
  exists r', errs. split; [|done].
  rewrite (bind_normal _ _ _ _ _ Hn). done.
Qed.

Lemma performFilters_body_spec this seed local_ c d :
  exists r' errs,
    performFilters_body this seed local_ c d =
    (Normal tt,
     extend d (set_local local_ r')
       (call_event c
          (set_local (object_spread [seed; variables c; local_]) (request d))
        :: errs))
    /\ Forall is_error_notification errs.
Proof. apply scoped_next. Qed.

Lemma receiveHandler_body_spec this local_ c d :
  exists r' errs,
    receiveHandler_body this local_ c d =
    (Normal tt,
     extend d (set_local local_ r')
       (call_event c
          (set_local (object_spread [variables c; local_]) (request d))
        :: errs))
    /\ Forall is_error_notification errs.
Proof. apply scoped_next. Qed.

(** Once [granted] is not true the filter loop does nothing more. *)
Lemma performFilters_loop_denied this seed local_ cs d :
  truthy (granted (request d)) = false ->
  performFilters_loop this seed local_ cs d = (Normal false, d).
Proof.
  intros Hg. destruct cs; simpl; unfold bind, gets; rewrite Hg; done.
Qed.

Lemma performFilters_loop_nil this seed local_ d :
  performFilters_loop this seed local_ [] d =
  (Normal (truthy (granted (request d))), d).
Proof. simpl. unfold bind, gets, ret. by rewrite orb_false_r. Qed.

Lemma performFilters_loop_cons this seed local_ c cs d :
  truthy (granted (request d)) = true ->
  performFilters_loop this seed local_ (c :: cs) d =
  (performFilters_body this seed local_ c ;;;
   performFilters_loop this seed local_ cs) d.
Proof. intros Hg. simpl. unfold bind at 1, gets. by rewrite Hg. Qed.

Lemma pipeline_event_errors P errs :
  Forall is_error_notification errs -> Forall (pipeline_event P) errs.
Proof. intros H. eapply Forall_impl; [exact H|]. by intros []. Qed.

Lemma call_event_pipeline (P : Variables -> Request -> Prop) c detail :
  P (variables c) detail -> pipeline_event P (call_event c detail).
Proof. unfold call_event. by destruct (candidate_onMatch c). Qed.

Lemma truthy_true g : truthy g = true -> g = Some true.
Proof. by destruct g as [[]|]. Qed.

(** The filter pass: it returns [granted || false] of the request it
    leaves, restores the local environment, and every handler it calls finds
    [granted] true and the merged local environment. *)
Lemma performFilters_loop_spec this seed local_ cs d :
  local (environment (request d)) = local_ ->
  exists r' evs,
    performFilters_loop this seed local_ cs d =
    (Normal (truthy (granted r')), extend d r' evs)
    /\ local (environment r') = local_
    /\ Forall (pipeline_event (fun vs detail =>
                 granted detail = Some true /\
                 local (environment detail) =
                 object_spread [seed; vs; local_])) evs.
Proof.
  revert d. induction cs as [|c cs IH]; intros d Hl.
  - exists (request d), []. rewrite performFilters_loop_nil, extend_nil. done.
  - destruct (truthy (granted (request d))) eqn:Hg.
    + rewrite performFilters_loop_cons by done.
      destruct (performFilters_body_spec this seed local_ c d)
        as (r1 & errs & Hb & He).
      rewrite (bind_normal _ _ _ _ _ Hb).
      edestruct (IH (extend d (set_local local_ r1)
                       (call_event c
                          (set_local (object_spread [seed; variables c; local_])
                             (request d)) :: errs)))
        as (r' & evs & Hloop & Hl' & Hevs); [done|].
      rewrite Hloop, extend_extend. eexists _, _. split_and!; [done|done|].
      apply Forall_app; split; [|done]. constructor.
      * apply call_event_pipeline. split; [|done].
        simpl. by apply truthy_true.
      * by apply pipeline_event_errors.
    + exists (request d), [].
      rewrite performFilters_loop_denied, extend_nil, Hg by done. done.
Qed.

Lemma performFilters_spec this seed d :
  exists r' evs,
    performFilters this seed d =
    (Normal (truthy (granted r')), extend d r' evs)
    /\ local (environment r') = local (environment (request d))
    /\ Forall (pipeline_event (fun vs detail =>
                 granted detail = Some true /\
                 local (environment detail) =
                 object_spread [seed; vs; local (environment (request d))]))
         evs.
Proof.
  unfold performFilters, bind at 1, gets. unfold bind at 1.
  by apply performFilters_loop_spec.
Qed.

Lemma object_spread_three (a b c : Variables) :
  object_spread [a; b; c] = c ∪ (b ∪ a).
Proof. unfold object_spread; simpl. by rewrite (right_id_L ∅ (∪) a). Qed.

Lemma object_spread_two (b c : Variables) :
  object_spread [b; c] = object_spread [∅; b; c].
Proof. unfold object_spread; simpl. by rewrite (right_id_L ∅ (∪) ∅). Qed.

Lemma receiveHandler_loop_cons this local_ c cs d :
  receiveHandler_loop this local_ (c :: cs) d =
  match performFilters this (variables c) d with
  | (Normal true, d1) =>
      (receiveHandler_body this local_ c ;;;
       receiveHandler_loop this local_ cs) d1
  | (Normal false, d1) => (Normal tt, d1)
  | (Thrown e, d1) => (Thrown e, d1)
  end.
Proof.
  simpl. unfold bind at 1.
  by destruct (performFilters this (variables c) d) as [[[]|e] d1].
Qed.

(** The processor loop: it returns, restores the local environment, and
    every handler called on the way (filters and processors) finds [granted]
    true and a local environment merged over the original one. *)
Lemma receiveHandler_loop_spec this local_ cs d :
  local (environment (request d)) = local_ ->
  exists r' evs,
    receiveHandler_loop this local_ cs d = (Normal tt, extend d r' evs)
    /\ local (environment r') = local_
    /\ Forall (pipeline_event (fun vs detail =>
                 granted detail = Some true /\
                 exists seed, local (environment detail) =
                              object_spread [seed; vs; local_])) evs.
Proof.
  revert d. induction cs as [|c cs IH]; intros d Hl.
  - exists (request d), []. simpl. unfold ret. rewrite extend_nil. done.
  - rewrite receiveHandler_loop_cons.
    destruct (performFilters_spec this (variables c) d)
      as (r1 & evs1 & Hf & Hl1 & Hevs1).
    rewrite Hf. rewrite Hl in Hl1, Hevs1.
    assert (Forall (pipeline_event (fun vs detail =>
                 granted detail = Some true /\
                 exists seed, local (environment detail) =
                              object_spread [seed; vs; local_])) evs1)
      as Hevs1'.
    { eapply Forall_impl; [exact Hevs1|].
      intros [] ; simpl; try done. intros [? ?]; eauto. }
    destruct (truthy (granted r1)) eqn:Hg.
    + destruct (receiveHandler_body_spec this local_ c (extend d r1 evs1))
        as (r2 & errs & Hb & He).
      rewrite (bind_normal _ _ _ _ _ Hb), extend_extend.
      edestruct (IH (extend d (set_local local_ r2)
                       (evs1 ++ call_event c
                          (set_local (object_spread [variables c; local_])
                             (request (extend d r1 evs1))) :: errs)))
        as (r' & evs & Hloop & Hl' & Hevs); [done|].
      rewrite Hloop, extend_extend. eexists _, _. split_and!; [done|done|].
      rewrite !Forall_app. split_and!; [done| |done].
      constructor; [|by apply pipeline_event_errors].
      apply call_event_pipeline. simpl. split; [by apply truthy_true|].
      exists ∅. apply object_spread_two.
    + eexists _, _. split_and!; done.
Qed.

(** [receiveHandler] as a whole. *)
Lemma receiveHandler_spec this d :
  exists r' evs,
    receiveHandler this d =
    (Normal tt,
     extend d r'
       (notifications Types.Receive (request d) (loggers this) ++
        evs ++
        notifications Types.Process r' (loggers this)))
    /\ local (environment r') = local (environment (request d))
    /\ Forall (pipeline_event (fun vs detail =>
                 granted detail = Some true /\
                 exists seed,
                   local (environment detail) =
                   object_spread
                     [seed; vs; local (environment (request d))])) evs.
Proof.
  unfold receiveHandler. unfold bind at 1, gets. unfold bind at 1.
  rewrite notifyRequest_supported by done.
  unfold bind at 1. unfold bind at 1.
  set (d0 := extend d (request d) _).
  destruct (receiveHandler_loop_spec this (local (environment (request d)))
              (Router_match (processors this) (path (request d0))) d0 eq_refl)
    as (r' & evs & Hloop & Hl & Hevs).
  exists r', evs. split_and!; [|done|done].
  rewrite (bind_normal _ _ _ _ _ Hloop).
  rewrite notify_current by done.
  unfold d0. by rewrite !extend_extend.
Qed.

Lemma handler_calls_app evs1 evs2 :
  handler_calls (evs1 ++ evs2) = handler_calls evs1 ++ handler_calls evs2.
Proof. apply omap_app. Qed.

Lemma handler_calls_call_event c detail :
  handler_calls [call_event c detail] = [call_of c].
Proof. unfold call_event, call_of. by destruct (candidate_onMatch c). Qed.

(** With no matching filter the pass changes nothing and answers
    [request.granted || false]. *)
Lemma performFilters_no_match this seed d :
  Router_match (filters this) (path (request d)) = [] ->
  performFilters this seed d = (Normal (truthy (granted (request d))), d).
Proof.
  intros Hm. unfold performFilters, bind at 1, gets. unfold bind at 1.
  rewrite Hm. apply performFilters_loop_nil.
Qed.

Lemma performFilters_denied this seed d :
  truthy (granted (request d)) = false ->
  performFilters this seed d = (Normal false, d).
Proof.
  intros Hg. unfold performFilters, bind at 1, gets. unfold bind at 1.
  by apply performFilters_loop_denied.
Qed.

Lemma receiveHandler_loop_denied this local_ cs d :
  truthy (granted (request d)) = false ->
  receiveHandler_loop this local_ cs d = (Normal tt, d).
Proof.
  intros Hg. destruct cs as [|c cs]; [done|].
  rewrite receiveHandler_loop_cons, performFilters_denied; done.
Qed.

(** The processor loop when no filter matches and the handlers keep the
    access decision: every candidate is advanced, in order. *)
Lemma receiveHandler_loop_open this local_ cs d :
  granted (request d) = Some true ->
  Router_match (filters this) (path (request d)) = [] ->
  Forall keeps_access cs ->
  exists r' evs,
    receiveHandler_loop this local_ cs d = (Normal tt, extend d r' evs)
    /\ handler_calls evs = map call_of cs.
Proof.
  intros Hg Hm Hcs. revert d Hg Hm.
  induction Hcs as [|c cs (h & m & ps & Hc & Hkeep) _ IH]; intros d Hg Hm.
  - exists (request d), []. simpl. unfold ret. by rewrite extend_nil.
  - rewrite receiveHandler_loop_cons, performFilters_no_match, Hg by done.
    simpl (truthy _). unfold bind at 1.
    unfold receiveHandler_body, bind at 1, update_request at 1, modify.
    set (merged := set_local _ (request d)).
    set (d1 := {| request := merged; dispatch_log := dispatch_log d |}).
    unfold bind at 1. rewrite (next_processor this c h m ps d1 Hc).
    destruct (Hkeep (variables c) merged) as [Hkg Hkp].
    change (request d1) with merged.
    destruct (construct_and_call h ps m (variables c) merged)
      as [[v|e] r1] eqn:Hcall; simpl in Hkg, Hkp;
      unfold update_request, modify;
      match goal with
      | |- context [receiveHandler_loop _ _ _ ?d2] =>
          destruct (IH d2) as (r' & evs & Hloop & Hcalls);
          [ simpl; by rewrite Hkg | simpl; by rewrite Hkp | ];
          rewrite Hloop
      end.
    + exists r', ([call_event c merged] ++ evs). split.
      * unfold extend; simpl. by rewrite <- !app_assoc.
      * by rewrite handler_calls_app, handler_calls_call_event, Hcalls.
    + exists r', ((call_event c merged
                   :: notifications Types.Error (set_error (Some e) r1)
                        (loggers this)) ++ evs). split.
      * unfold extend; simpl. by rewrite <- !app_assoc.
      * rewrite handler_calls_app, Hcalls.
        change (call_event c merged :: ?l) with ([call_event c merged] ++ l).
        rewrite handler_calls_app, handler_calls_call_event.
        by rewrite (notifications_no_calls Types.Error).
Qed.

(** * The dispatch pipeline *)

(** If the filter pass over the first candidates ends with [granted] not
    true, the pass over any longer sequence ends there too. *)
Lemma performFilters_loop_prefix this seed local_ pre f post b d d1 :
  performFilters_loop this seed local_ (pre ++ [f]) d = (Normal b, d1) ->
  truthy (granted (request d1)) = false ->
  performFilters_loop this seed local_ (pre ++ f :: post) d
  = (Normal false, d1).
Proof.
  revert d. induction pre as [|c pre IH]; intros d Hrun Hdenied; simpl app in *.
  - destruct (truthy (granted (request d))) eqn:Hg.
    + rewrite performFilters_loop_cons in Hrun |- * by done.
      unfold bind in Hrun |- *.
      destruct (performFilters_body this seed local_ f d) as [[[]|e] d2];
        [|done].
      rewrite performFilters_loop_nil in Hrun. simplify_eq.
      by apply performFilters_loop_denied.
    + rewrite performFilters_loop_denied in Hrun by done. simplify_eq.
      by apply performFilters_loop_denied.
  - destruct (truthy (granted (request d))) eqn:Hg.
    + rewrite performFilters_loop_cons in Hrun |- * by done.
      unfold bind in Hrun |- *.
      destruct (performFilters_body this seed local_ c d) as [[[]|e] d2];
        [|done].
      by apply IH.
    + rewrite performFilters_loop_denied in Hrun by done. simplify_eq.
      by apply performFilters_loop_denied.
Qed.

(** A filter whose handler does not return [true] (it returns something
    else, or throws) leaves [granted] false, whatever the hook answers. *)
Lemma performFilters_body_denies this seed local_ c h m ps d :
  candidate_onMatch c = FilterOnMatch h m ps ->
  fst (construct_and_call h ps m (variables c)
         (set_local (object_spread [seed; variables c; local_]) (request d)))
  <> Returns (VBool true) ->
  exists d1,
    performFilters_body this seed local_ c d = (Normal tt, d1)
    /\ granted (request d1) = Some false.
Proof.
  intros Hc Hverdict.
  unfold performFilters_body, bind at 1, update_request at 1, modify.
  set (d0 := {| request := set_local _ (request d);
                dispatch_log := dispatch_log d |}).
  destruct (next_filter this c h m ps d0 Hc) as (v & r1 & errs & Hn & _ & Hv).
  rewrite (bind_normal _ _ _ _ _ Hn). unfold update_request, modify.
  eexists. split; [done|]. simpl.
  rewrite Hv by done. by rewrite andb_false_r.
Qed.

(** C1 (filter short-circuit). While the processor loop considers the
    candidate [p], let the filters matching the request be [pre ++ f :: post].
    If the pass up to and including [f] leaves [request.granted] not true
    (state [d1]), then the whole pass stops in that very state, so no
    candidate of [post] is advanced, [performFilters] returns [false], and
    the processor loop ends in [d1] as well: neither [p] nor any later
    processor is advanced. *)
Theorem filter_denial_short_circuits this p procs local0 pre f post b d d1 :
  Router_match (filters this) (path (request d)) = pre ++ f :: post ->
  performFilters_loop this (variables p) (local (environment (request d)))
    (pre ++ [f]) d = (Normal b, d1) ->
  truthy (granted (request d1)) = false ->
  performFilters_loop this (variables p) (local (environment (request d)))
    (pre ++ f :: post) d = (Normal false, d1)
  /\ performFilters this (variables p) d = (Normal false, d1)
  /\ receiveHandler_loop this local0 (p :: procs) d = (Normal tt, d1).
Proof.
  intros Hmatch Hrun Hdenied.
  pose proof (performFilters_loop_prefix _ _ _ _ _ post _ _ _ Hrun Hdenied)
    as Hfull.
  assert (performFilters this (variables p) d = (Normal false, d1)) as Hpass.
  { unfold performFilters, bind at 1, gets. unfold bind at 1.
    by rewrite Hmatch. }
  split_and!; [done|done|].
  by rewrite receiveHandler_loop_cons, Hpass.
Qed.

Lemma filter_denial_short_circuits_witness :
  let d := incoming (request_for "/a" (Some true)) in
  let d1 := snd (performFilters_loop (this denying_app) ∅
                   {["user" := VStr "ann"]} [deny_candidate] d) in
  handler_calls (dispatch_log d1) = [call_of deny_candidate]
  /\ performFilters (this denying_app) ∅ d = (Normal false, d1)
  /\ receiveHandler_loop (this denying_app) {["user" := VStr "ann"]}
       [view_candidate] d = (Normal tt, d1).
Proof.
  intros d d1. split; [vm_compute; reflexivity|].
  apply (filter_denial_short_circuits (this denying_app) view_candidate []
           {["user" := VStr "ann"]} [] deny_candidate [allow_candidate]
           false d d1).
  - vm_compute; reflexivity.
  - vm_compute; reflexivity.
  - vm_compute; reflexivity.
Defined.

(** C2 as stated fails: [receiveHandler] does not seed [request.granted].
    A request that arrives with [granted] false, or without it, and matches
    no filter does not reach its matching processor. *)
Lemma unseeded_request_not_processed :
  let d := incoming (request_for "/a" (Some false)) in
  let d' := incoming (request_for "/a" None) in
  Router_match (filters (this open_app)) "/a" = []
  /\ Router_match (processors (this open_app)) "/a" = [paged_view_candidate]
  /\ handler_calls (dispatch_log (snd (receiveHandler (this open_app) d))) = []
  /\ handler_calls (dispatch_log (snd (receiveHandler (this open_app) d'))) = []
  /\ output (request (snd (receiveHandler (this open_app) d))) = VUndefined.
Proof. vm_compute. done. Qed.

(** C2 (default-granted on zero filters), amended. [performFilters] returns
    [request.granted || false] and [receiveHandler] leaves the seeding of
    [granted] to its caller: for a request that arrives with [granted] true
    and whose path matches no filter route, every matching processor is
    invoked, in match order, provided the processor handlers leave
    [granted] and [path] alone. *)
Theorem default_granted_on_zero_filters this d :
  granted (request d) = Some true ->
  Router_match (filters this) (path (request d)) = [] ->
  Forall keeps_access (Router_match (processors this) (path (request d))) ->
  fst (receiveHandler this d) = Normal tt
  /\ handler_calls (dispatch_log (snd (receiveHandler this d)))
     = handler_calls (dispatch_log d)
       ++ map call_of (Router_match (processors this) (path (request d))).
Proof.
  intros Hg Hm Hcs.
  set (d0 := extend d (request d)
               (notifications Types.Receive (request d) (loggers this))).
  destruct (receiveHandler_loop_open this (local (environment (request d0)))
              (Router_match (processors this) (path (request d0))) d0)
    as (r' & evs & Hloop & Hcalls); [done..|].
  assert (receiveHandler this d =
          (Normal tt,
           extend (extend d0 r' evs) r'
             (notifications Types.Process r' (loggers this)))) as ->.
  { unfold receiveHandler. unfold bind at 1, gets. unfold bind at 1.
    rewrite notifyRequest_supported by done.
    unfold bind at 1. unfold bind at 1.
    rewrite (bind_normal _ _ _ _ _ Hloop).
    by rewrite notify_current. }
  split; [done|]. unfold d0, extend in *. cbn [snd dispatch_log request] in *.
  rewrite !handler_calls_app, !notifications_no_calls, Hcalls.
  by rewrite !app_nil_r.
Qed.

Lemma default_granted_on_zero_filters_witness :
  let d := incoming (request_for "/a" (Some true)) in
  fst (receiveHandler (this open_app) d) = Normal tt
  /\ handler_calls (dispatch_log (snd (receiveHandler (this open_app) d)))
     = handler_calls (dispatch_log d)
       ++ map call_of (Router_match (processors (this open_app))
                         (path (request d))).
Proof.
  intros d. apply (default_granted_on_zero_filters (this open_app) d).
  - reflexivity.
  - vm_compute; reflexivity.
  - replace (Router_match _ _) with [paged_view_candidate]
      by (vm_compute; reflexivity).
    constructor; [|constructor].
    exists Page, "view", []. split; [reflexivity|].
    intros vs r. split; reflexivity.
Defined.

(** C7 (Receive/Process notifications). Every dispatch through
    [receiveHandler] returns normally and its log is: one [onReceive] per
    logger with the request as it arrived, then the events of the processor
    loop (handler calls and error notifications only), then one [onProcess]
    per logger with the request as the loop left it, whether the loop ran
    out of candidates or was ended by a denial, and also when it called no
    handler at all. *)
Theorem receive_then_process this d :
  exists r' evs,
    receiveHandler this d =
    (Normal tt,
     {| request := r';
        dispatch_log :=
          dispatch_log d ++
          map (fun l => LoggerOnReceive l (request d)) (loggers this) ++
          evs ++
          map (fun l => LoggerOnProcess l r') (loggers this) |})
    /\ Forall (fun e => match e with
                        | HandlerCall _ _ _ _ _ | LoggerOnError _ _ => True
                        | _ => False
                        end) evs.
Proof.
  destruct (receiveHandler_spec this d) as (r' & evs & Hrun & _ & Hevs).
  exists r', evs. split; [exact Hrun|].
  eapply Forall_impl; [exact Hevs|]. by intros [].
Qed.

(** C8 (granted monotonicity). Once [request.granted] is not true, the rest
    of the dispatch is the identity on the request: the filter loop and the
    filter pass return [false] without advancing a candidate, the processor
    loop ends without advancing a candidate, and [receiveHandler] as a whole
    calls no handler and leaves the request as it is. Nothing is left to
    write [granted] again. *)
Theorem granted_never_regained this d :
  truthy (granted (request d)) = false ->
  (forall seed local_ cs,
     performFilters_loop this seed local_ cs d = (Normal false, d))
  /\ (forall seed, performFilters this seed d = (Normal false, d))
  /\ (forall local_ cs, receiveHandler_loop this local_ cs d = (Normal tt, d))
  /\ receiveHandler this d =
     (Normal tt,
      {| request := request d;
         dispatch_log :=
           dispatch_log d ++
           map (fun l => LoggerOnReceive l (request d)) (loggers this) ++
           map (fun l => LoggerOnProcess l (request d)) (loggers this) |}).
Proof.
  intros Hg. split_and!.
  - intros. by apply performFilters_loop_denied.
  - intros. by apply performFilters_denied.
  - intros. by apply receiveHandler_loop_denied.
  - unfold receiveHandler. unfold bind at 1, gets. unfold bind at 1.
    rewrite notifyRequest_supported by done.
    unfold bind at 1. unfold bind at 1.
    set (d0 := extend d (request d) _).
    rewrite (bind_normal _ _ _ _ _
               (receiveHandler_loop_denied this _ _ d0 Hg)).
    rewrite notify_current by done.
    unfold d0, extend; simpl. by rewrite <- app_assoc.
Qed.

Lemma granted_never_regained_witness :
  let d1 := snd (performFilters_loop (this denying_app) ∅
                   {["user" := VStr "ann"]} [deny_candidate]
                   (incoming (request_for "/a" (Some true)))) in
  granted (request d1) = Some false
  /\ performFilters_loop (this denying_app) ∅ {["user" := VStr "ann"]}
       [allow_candidate] d1 = (Normal false, d1)
  /\ receiveHandler_loop (this denying_app) {["user" := VStr "ann"]}
       [view_candidate] d1 = (Normal tt, d1).
Proof.
  intros d1.
  destruct (granted_never_regained (this denying_app) d1 eq_refl)
    as (Hloop & _ & Hprocessors & _).
  split; [reflexivity|]. split; [apply Hloop|apply Hprocessors].
Defined.



(** C10 (no loggers, no check). With no logger registered, [notifyRequest]
    and [notifyAction] return normally for every type, supported or not, and
    leave the request and the log as they are: the [switch] that rejects an
    unsupported type is inside the loop over the loggers. *)
Theorem notify_without_loggers (app : Main) (w : Runtime) (d : Dispatch)
  (request_type : Types.Request) (r : Request) (action_type : Types.Action) :
  loggers app = [] ->
  loggers (this w) = [] ->
  notifyRequest app request_type r d = (Normal tt, d)
  /\ notifyAction action_type w = (Normal tt, w).
Proof.
  intros Happ Hw. split.
  - by apply notifyRequest_no_loggers.
  - unfold notifyAction, bind, gets. by rewrite Hw.
Qed.

Lemma notify_without_loggers_witness :
  notifyRequest (this fresh) (Types.UnsupportedRequest "ping")
    (request_for "/a" None) (incoming (request_for "/a" None))
  = (Normal tt, incoming (request_for "/a" None))
  /\ notifyAction (Types.UnsupportedAction "pause") fresh
     = (Normal tt, fresh).
Proof.
  apply (notify_without_loggers (this fresh) fresh
           (incoming (request_for "/a" None))
           (Types.UnsupportedRequest "ping") (request_for "/a" None)
           (Types.UnsupportedAction "pause"));
    reflexivity.
Defined.

(** Key by key, the local environment wins over the match's variables,
    which win over the seed. *)
Lemma object_spread_lookup (seed vs local_ : Variables) (k : string) :
  object_spread [seed; vs; local_] !! k =
  match local_ !! k with
  | Some v => Some v
  | None => match vs !! k with
            | Some v => Some v
            | None => seed !! k
            end
  end.
Proof.
  rewrite object_spread_three, !lookup_union.
  by destruct (local_ !! k), (vs !! k), (seed !! k).
Qed.

(** The processor loop, turn by turn. *)
Lemma receiveHandler_loop_turns this local_ cs d :
  local (environment (request d)) = local_ ->
  exists r' evs,
    receiveHandler_loop this local_ cs d = (Normal tt, extend d r' evs)
    /\ local (environment r') = local_
    /\ scoped_turns local_ cs evs.
Proof.
  revert d. induction cs as [|c cs IH]; intros d Hl.
  - exists (request d), []. simpl. unfold ret. by rewrite extend_nil.
  - rewrite receiveHandler_loop_cons.
    destruct (performFilters_spec this (variables c) d)
      as (r1 & evs1 & Hf & Hl1 & Hevs1).
    rewrite Hf. rewrite Hl in Hl1, Hevs1.
    assert (Forall (filter_scoped (variables c) local_) evs1) as Hscoped.
    { eapply Forall_impl; [exact Hevs1|].
      intros []; simpl; try done. by intros [_ ?]. }
    destruct (truthy (granted r1)) eqn:Hg.
    + destruct (receiveHandler_body_spec this local_ c (extend d r1 evs1))
        as (r2 & errs & Hb & He).
      rewrite (bind_normal _ _ _ _ _ Hb), extend_extend.
      edestruct (IH (extend d (set_local local_ r2)
                       (evs1 ++ call_event c
                          (set_local (object_spread [variables c; local_])
                             (request (extend d r1 evs1))) :: errs)))
        as (r' & evs & Hloop & Hl' & Hturns); [done|].
      rewrite Hloop, extend_extend. eexists _, _. split_and!; [done|done|].
      simpl. eexists evs1, _. split; [by rewrite <- app_assoc|].
      split; [done|]. right. eexists _, errs, evs.
      split_and!; [done|done|done|done].
    + eexists _, _. split_and!; [done|done|].
      simpl. exists evs1, []. rewrite app_nil_r. split_and!; [done|done|].
      by left.
Qed.

(** C3 (local-environment scoping and restoration). One turn of the filter
    loop calls the handler with [environment.local] set to the merge of the
    seed, the match's variables and the saved local environment, and leaves
    the saved one in place when it is over; one turn of the processor loop
    does the same without a seed. In the merge the saved local environment
    wins every key collision. In [performFilters] every handler called finds
    the merge of the seed handed to [performFilters], the variables of its
    own match and the local environment the pass started with, which the
    pass restores. In [receiveHandler] the events come turn by turn: for
    each processor candidate the filters, which find the merge seeded with
    that candidate's variables, then the candidate's own handler, which
    finds the merge of its variables and the original local environment; the
    dispatch ends with the local environment it started with. *)
Theorem local_environment_scoped this d :
  (forall seed local_ c,
     exists r' errs,
       performFilters_body this seed local_ c d =
       (Normal tt,
        {| request := set_local local_ r';
           dispatch_log :=
             dispatch_log d ++
             call_event c
               (set_local (object_spread [seed; variables c; local_])
                  (request d)) :: errs |})
       /\ Forall is_error_notification errs)
  /\ (forall local_ c,
        exists r' errs,
          receiveHandler_body this local_ c d =
          (Normal tt,
           {| request := set_local local_ r';
              dispatch_log :=
                dispatch_log d ++
                call_event c
                  (set_local (object_spread [variables c; local_])
                     (request d)) :: errs |})
          /\ Forall is_error_notification errs)
  /\ (forall (seed vs local_ : Variables) (k : string),
        object_spread [seed; vs; local_] !! k =
        match local_ !! k with
        | Some v => Some v
        | None => match vs !! k with
                  | Some v => Some v
                  | None => seed !! k
                  end
        end
        /\ object_spread [vs; local_] !! k =
           match local_ !! k with
           | Some v => Some v
           | None => vs !! k
           end)
  /\ (forall seed,
        exists r' evs,
          performFilters this seed d =
          (Normal (truthy (granted r')),
           {| request := r'; dispatch_log := dispatch_log d ++ evs |})
          /\ local (environment r') = local (environment (request d))
          /\ Forall (fun e =>
               match e with
               | HandlerCall _ _ _ vs detail =>
                   local (environment detail) =
                   object_spread
                     [seed; vs; local (environment (request d))]
               | LoggerOnError _ _ => True
               | _ => False
               end) evs)
  /\ exists r' evs,
       receiveHandler this d =
       (Normal tt,
        {| request := r';
           dispatch_log :=
             dispatch_log d ++
             map (fun l => LoggerOnReceive l (request d)) (loggers this) ++
             evs ++
             map (fun l => LoggerOnProcess l r') (loggers this) |})
       /\ local (environment r') = local (environment (request d))
       /\ scoped_turns (local (environment (request d)))
            (Router_match (processors this) (path (request d))) evs.
Proof.
  split_and!.
  - intros. apply performFilters_body_spec.
  - intros. apply receiveHandler_body_spec.
  - intros. split; [apply object_spread_lookup|].
    rewrite object_spread_two, object_spread_lookup, lookup_empty.
    by destruct (local_ !! k), (vs !! k).
  - intros seed.
    destruct (performFilters_spec this seed d) as (r' & evs & Hrun & Hl & Hevs).
    exists r', evs. split_and!; [exact Hrun|exact Hl|].
    eapply Forall_impl; [exact Hevs|]. intros []; simpl; try done.
    by intros [_ ?].
  - set (d0 := extend d (request d)
                 (notifications Types.Receive (request d) (loggers this))).
    destruct (receiveHandler_loop_turns this
                (local (environment (request d)))
                (Router_match (processors this) (path (request d))) d0 eq_refl)
      as (r' & evs & Hloop & Hl & Hturns).
    exists r', evs. split_and!; [|exact Hl|exact Hturns].
    unfold receiveHandler. unfold bind at 1, gets. unfold bind at 1.
    rewrite notifyRequest_supported by done.
    unfold bind at 1. unfold bind at 1. fold d0.
    change (path (request d0)) with (path (request d)).
    change (local (environment (request d0)))
      with (local (environment (request d))).
    rewrite (bind_normal _ _ _ _ _ Hloop).
    rewrite notify_current by done.
    unfold d0. by rewrite !extend_extend.
Qed.






(** * Configuration and lifecycle *)

Lemma logged_nil w : logged w [] = w.
Proof. destruct w; unfold logged; simpl. by rewrite app_nil_r. Qed.

Lemma logged_logged w evs1 evs2 :
  logged (logged w evs1) evs2 = logged w (evs1 ++ evs2).
Proof. unfold logged; simpl. by rewrite app_assoc. Qed.

Lemma for_of_logged {A} (body : A -> M Runtime unit) (f : A -> list Event) :
  (forall x w, body x w = (Normal tt, logged w (f x))) ->
  forall xs w, for_of xs body w = (Normal tt, logged w (concat (map f xs))).
Proof.
  intros Hbody xs. induction xs as [|x xs IH]; intros w; simpl.
  - unfold ret. by rewrite logged_nil.
  - unfold bind. by rewrite Hbody, IH, logged_logged.
Qed.

Lemma notifyAction_start w :
  notifyAction Types.Start w =
  (Normal tt, logged w (map LoggerOnStart (loggers (this w)))).
Proof.
  unfold notifyAction, bind at 1, gets.
  rewrite (for_of_logged _ (fun l => [LoggerOnStart l])) by done.
  f_equal. f_equal. induction (loggers (this w)); simpl; congruence.
Qed.

Lemma notifyAction_stop w :
  notifyAction Types.Stop w =
  (Normal tt, logged w (map LoggerOnStop (loggers (this w)))).
Proof.
  unfold notifyAction, bind at 1, gets.
  rewrite (for_of_logged _ (fun l => [LoggerOnStop l])) by done.
  f_equal. f_equal. induction (loggers (this w)); simpl; congruence.
Qed.

(** [start] on a stopped application. *)
Lemma start_stopped w :
  started (this w) = false ->
  start w =
  (Normal tt,
   {| Main_routes := Main_routes w;
      this := set_started true (this w);
      runtime_log :=
        runtime_log w ++ map LoggerOnStart (loggers (this w)) ++
        concat (map start_service (services (this w))) |}).
Proof.
  intros Hs. unfold start, bind at 1, gets. rewrite Hs.
  rewrite (bind_normal _ _ _ _ _ (notifyAction_start w)).
  unfold bind at 1, gets. simpl.
  erewrite bind_normal; last first.
  { apply (for_of_logged _ start_service). intros s w'.
    unfold bind, log, modify, logged, start_service; simpl.
    by rewrite <- !app_assoc. }
  unfold update_this, modify, logged; simpl. by rewrite <- app_assoc.
Qed.

(** [stop] on a started application. *)
Lemma stop_started w :
  started (this w) = true ->
  stop w =
  (Normal tt,
   {| Main_routes := Main_routes w;
      this := set_started false (this w);
      runtime_log :=
        runtime_log w ++ concat (map stop_service (services (this w))) ++
        map LoggerOnStop (loggers (this w)) |}).
Proof.
  intros Hs. unfold stop, bind at 1, gets. rewrite Hs. simpl.
  unfold bind at 1, gets.
  erewrite bind_normal; last first.
  { apply (for_of_logged _ stop_service). intros s w'.
    unfold bind, log, modify, logged, stop_service; simpl.
    by rewrite <- !app_assoc. }
  unfold bind at 1, update_this at 1, modify.
  rewrite notifyAction_stop.
  unfold logged; simpl. by rewrite <- app_assoc.
Qed.

Lemma for_of_install handler parameters routes w :
  Forall (fun r => type r = Types.Filter \/ type r = Types.Processor) routes ->
  for_of routes (fun route =>
    match type route with
    | Types.Filter =>
        update_this (filters_add (filter_entry route handler parameters))
    | Types.Processor =>
        update_this
          (processors_add (processor_entry route handler parameters))
    | Types.UnsupportedRoute n =>
        throw (JsTypeError (unsupported_route_message n))
    end) w
  = (Normal tt,
     {| Main_routes := Main_routes w;
        this := foldl (install_route handler parameters) (this w) routes;
        runtime_log := runtime_log w |}).
Proof.
  intros Hroutes. revert w.
  induction Hroutes as [|r routes Hr _ IH]; intros w; simpl.
  - by destruct w.
  - unfold bind, install_route at 2.
    destruct Hr as [-> | ->]; unfold update_this, modify; by rewrite IH.
Qed.

(** [addHandler] on a stopped application whose routes are supported. *)
Lemma addHandler_stopped handler parameters w :
  started (this w) = false ->
  Forall (fun r => type r = Types.Filter \/ type r = Types.Processor)
    (default [] (Main_routes w !! constructor_id handler)) ->
  addHandler handler parameters w =
  (Normal tt,
   {| Main_routes := Main_routes w;
      this := foldl (install_route handler parameters) (this w)
                (default [] (Main_routes w !! constructor_id handler));
      runtime_log := runtime_log w |}).
Proof.
  intros Hs Hroutes. unfold addHandler, bind at 1, gets. rewrite Hs.
  unfold bind at 1. by apply for_of_install.
Qed.

Lemma routes_supported_lookup w h :
  routes_supported w ->
  Forall (fun r => type r = Types.Filter \/ type r = Types.Processor)
    (default [] (Main_routes w !! h)).
Proof.
  intros Hw. destruct (Main_routes w !! h) as [rs|] eqn:Hl; simpl.
  - by apply (Hw h).
  - constructor.
Qed.

(** The decorators keep the table within the supported kinds. *)
Lemma addRoute_supported handler route w :
  type route = Types.Filter \/ type route = Types.Processor ->
  routes_supported w ->
  routes_supported (snd (addRoute handler route w)).
Proof.
  intros Hr Hw h rs. unfold addRoute, modify; simpl.
  destruct (decide (constructor_id handler = h)) as [<-|Hne].
  - rewrite lookup_insert_eq. intros [= <-].
    apply Forall_app. split; [by apply routes_supported_lookup|].
    by constructor.
  - rewrite lookup_insert_ne by done. apply Hw.
Qed.

Lemma decorators_supported action_ handler property descriptor w :
  routes_supported w ->
  routes_supported (snd (Filter action_ handler property descriptor w))
  /\ routes_supported (snd (Processor action_ handler property descriptor w)).
Proof.
  intros Hw. unfold Filter, Processor.
  destruct descriptor as [|[]]; simpl; [done| |done].
  split; apply addRoute_supported; auto.
Qed.

Lemma fresh_supported : routes_supported fresh.
Proof. intros h rs. unfold fresh; simpl. by rewrite lookup_empty. Qed.

Lemma decorated_supported : routes_supported decorated.
Proof.
  unfold decorated, configure. cbn [foldl].
  apply decorators_supported, decorators_supported, decorators_supported.
  apply fresh_supported.
Qed.

(** C4 (configuration errors iff wrong state). Either the application is
    started, and then [addHandler], [addService], [addLogger] and [start]
    throw their configuration error and leave the runtime exactly as it was,
    while [stop] succeeds; or it is stopped, and then [addHandler],
    [addService], [addLogger] and [start] succeed, while [stop] throws its
    configuration error and leaves the runtime exactly as it was. *)
Theorem configuration_errors_iff_wrong_state w handler parameters
  service service_parameters logger logger_parameters :
  routes_supported w ->
  (started (this w) = true
   /\ addHandler handler parameters w
      = (Thrown
           (JsError "To add new handlers the application must be stopped."),
         w)
   /\ addService service service_parameters w
      = (Thrown
           (JsError "To add new services the application must be stopped."),
         w)
   /\ addLogger logger logger_parameters w
      = (Thrown
           (JsError
              "To add new loggers service the application must be stopped."),
         w)
   /\ start w = (Thrown (JsError "Application was already started."), w)
   /\ exists w', stop w = (Normal tt, w') /\ started (this w') = false)
  \/
  (started (this w) = false
   /\ (exists w', addHandler handler parameters w = (Normal tt, w')
                  /\ started (this w') = false)
   /\ (exists s w', addService service service_parameters w = (Normal s, w')
                    /\ services (this w') = services (this w) ++ [s])
   /\ (exists l w', addLogger logger logger_parameters w = (Normal l, w')
                    /\ loggers (this w') = loggers (this w) ++ [l])
   /\ (exists w', start w = (Normal tt, w') /\ started (this w') = true)
   /\ stop w = (Thrown (JsError "Application wasn't started."), w)).
Proof.
  intros Hroutes. destruct (started (this w)) eqn:Hs; [left|right].
  - split_and!; [done|..].
    + unfold addHandler, bind, gets. by rewrite Hs.
    + unfold addService, bind, gets. by rewrite Hs.
    + unfold addLogger, bind, gets. by rewrite Hs.
    + unfold start, bind, gets. by rewrite Hs.
    + rewrite stop_started by done. eauto.
  - split_and!; [done|..].
    + rewrite addHandler_stopped
        by (try done; by apply routes_supported_lookup).
      eexists. split; [done|]. simpl.
      generalize (this w) Hs.
      induction (default [] (Main_routes w !! constructor_id handler))
        as [|r rs IH]; intros m Hm; simpl; [done|].
      apply IH. unfold install_route. by destruct (type r).
    + unfold addService, bind, gets. rewrite Hs.
      unfold update_this, modify, ret. eexists _, _. split; done.
    + unfold addLogger, bind, gets. rewrite Hs.
      unfold update_this, modify, ret. eexists _, _. split; done.
    + rewrite start_stopped by done. eauto.
    + unfold stop, bind, gets. by rewrite Hs.
Qed.

Lemma configuration_errors_iff_wrong_state_witness :
  (started (this decorated) = true
   /\ addHandler Gate [] decorated
      = (Thrown
           (JsError "To add new handlers the application must be stopped."),
         decorated)
   /\ addService (inr http) [] decorated
      = (Thrown
           (JsError "To add new services the application must be stopped."),
         decorated)
   /\ addLogger (inr console) [] decorated
      = (Thrown
           (JsError
              "To add new loggers service the application must be stopped."),
         decorated)
   /\ start decorated
      = (Thrown (JsError "Application was already started."), decorated)
   /\ exists w', stop decorated = (Normal tt, w')
                 /\ started (this w') = false)
  \/
  (started (this decorated) = false
   /\ (exists w', addHandler Gate [] decorated = (Normal tt, w')
                  /\ started (this w') = false)
   /\ (exists s w', addService (inr http) [] decorated = (Normal s, w')
                    /\ services (this w') = services (this decorated) ++ [s])
   /\ (exists l w', addLogger (inr console) [] decorated = (Normal l, w')
                    /\ loggers (this w') = loggers (this decorated) ++ [l])
   /\ (exists w', start decorated = (Normal tt, w')
                  /\ started (this w') = true)
   /\ stop decorated
      = (Thrown (JsError "Application wasn't started."), decorated)).
Proof.
  apply (configuration_errors_iff_wrong_state decorated Gate []
           (inr http) [] (inr console) []).
  apply decorated_supported.
Defined.

Lemma install_route_entries handler parameters routes m :
  map settings
    (entries (filters (foldl (install_route handler parameters) m routes)))
  = map settings (entries (filters m))
    ++ map action (List.filter is_filter routes)
  /\ map settings
       (entries
          (processors (foldl (install_route handler parameters) m routes)))
     = map settings (entries (processors m))
       ++ map (fun r => with_exact (Some (default true (exact (action r))))
                          (action r))
            (List.filter is_processor routes).
Proof.
  revert m. induction routes as [|r routes IH]; intros m; simpl.
  - by rewrite !app_nil_r.
  - destruct (IH (install_route handler parameters m r)) as [-> ->].
    unfold install_route, is_filter, is_processor.
    destruct r as [[] a mth]; simpl; rewrite ?map_app; simpl;
      rewrite <- ?app_assoc; simpl; try done.
    split; [done|]. unfold with_exact. by destruct (exact a).
Qed.

(** C6 (exact-match defaulting). [addHandler] on a stopped application
    registers every filter route of the handler with its action as declared,
    and every processor route with its action where [exact] is [true] if it
    was left undefined and the declared value otherwise; the other members of
    the action are kept. Entries are appended in the order of the routes. *)
Theorem exact_match_defaulting handler parameters w :
  started (this w) = false ->
  Forall (fun r => type r = Types.Filter \/ type r = Types.Processor)
    (default [] (Main_routes w !! constructor_id handler)) ->
  exists w',
    addHandler handler parameters w = (Normal tt, w')
    /\ map settings (entries (filters (this w')))
       = map settings (entries (filters (this w)))
         ++ map action
              (List.filter is_filter
                 (default [] (Main_routes w !! constructor_id handler)))
    /\ map settings (entries (processors (this w')))
       = map settings (entries (processors (this w)))
         ++ map (fun r => with_exact (Some (default true (exact (action r))))
                            (action r))
              (List.filter is_processor
                 (default [] (Main_routes w !! constructor_id handler))).
Proof.
  intros Hs Hroutes. rewrite addHandler_stopped by done.
  eexists. split; [done|]. simpl. apply install_route_entries.
Qed.

Lemma exact_match_defaulting_witness :
  exists w',
    addHandler Gate [] decorated = (Normal tt, w')
    /\ map settings (entries (filters (this w')))
       = [on_path "/" (Some false) None]
    /\ map settings (entries (processors (this w')))
       = [on_path "/a" (Some true) None; on_path "/b" (Some false) None].
Proof.
  destruct (exact_match_defaulting Gate [] decorated) as (w' & Hadd & Hf & Hp).
  - reflexivity.
  - apply routes_supported_lookup, decorated_supported.
  - exists w'. split_and!; [exact Hadd|exact Hf|exact Hp].
Defined.

(** * Further properties of the notification hub *)

(** X1 (request notifications fan out). For a supported type,
    [notifyRequest] returns normally, hands the one copy to every logger
    once, in registration order, and leaves the request alone;
    [sendHandler] and [errorHandler] are that call with the types [Send] and
    [Error] on the request of the dispatch. *)
Theorem request_notifications_fan_out this type_ r d :
  supported type_ = true ->
  notifyRequest this type_ r d
  = (Normal tt,
     {| request := request d;
        dispatch_log :=
          dispatch_log d ++ notifications type_ r (loggers this) |})
  /\ length (notifications type_ r (loggers this)) = length (loggers this)
  /\ sendHandler this d
     = (Normal tt,
        {| request := request d;
           dispatch_log :=
             dispatch_log d ++
             map (fun l => LoggerOnSend l (request d)) (loggers this) |})
  /\ errorHandler this d
     = (Normal tt,
        {| request := request d;
           dispatch_log :=
             dispatch_log d ++
             map (fun l => LoggerOnError l (request d)) (loggers this) |}).
Proof.
  intros Hs. split_and!.
  - by apply notifyRequest_supported.
  - destruct type_; simpl; try done; by rewrite length_map.
  - unfold sendHandler. by rewrite notify_current.
  - unfold errorHandler. by rewrite notify_current.
Qed.

Lemma request_notifications_fan_out_witness :
  notifyRequest (this open_app) Types.Send (request_for "/b" None)
    (incoming (request_for "/a" (Some true)))
  = (Normal tt,
     {| request := request_for "/a" (Some true);
        dispatch_log := [LoggerOnSend console (request_for "/b" None)] |}).
Proof.
  apply (request_notifications_fan_out (this open_app) Types.Send
           (request_for "/b" None) (incoming (request_for "/a" (Some true)))).
  reflexivity.
Defined.

(** X3 (action notifications fan out). [notifyAction] with [Start] calls
    [onStart] on every logger once, in registration order, and with [Stop]
    calls [onStop] likewise; the application and the route table are left
    alone. *)
Theorem action_notifications_fan_out w :
  notifyAction Types.Start w
  = (Normal tt,
     {| Main_routes := Main_routes w; this := this w;
        runtime_log :=
          runtime_log w ++ map LoggerOnStart (loggers (this w)) |})
  /\ notifyAction Types.Stop w
     = (Normal tt,
        {| Main_routes := Main_routes w; this := this w;
           runtime_log :=
             runtime_log w ++ map LoggerOnStop (loggers (this w)) |}).
Proof. split; [apply notifyAction_start|apply notifyAction_stop]. Qed.

(** * Further properties of the dispatch pipeline *)

(** X4 ([performHandler] never throws). Whatever the handler does,
    [performHandler] returns: the handler's own value when it returns, with
    no notification and the detail as the handler left it (an error stored
    by an earlier call is not cleared), and [undefined] when it throws. *)
Theorem performHandler_returns this h m ps vs d :
  exists v d',
    performHandler this h m ps vs d = (Normal v, d')
    /\ match construct_and_call h ps m vs (request d) with
       | (Returns result, r1) =>
           v = result
           /\ d' = {| request := r1;
                      dispatch_log :=
                        dispatch_log d ++
                        [HandlerCall (constructor_id h) m ps vs (request d)] |}
       | (Throws e, r1) =>
           v = VUndefined /\ error (request d') = Some e
       end.
Proof.
  rewrite performHandler_eq.
  destruct (construct_and_call h ps m vs (request d)) as [[v|e] r1];
    eexists _, _; (split; [done|]); done.
Qed.

Lemma next_filter_eq this c h m ps d :
  candidate_onMatch c = FilterOnMatch h m ps ->
  next this c d =
  match construct_and_call h ps m (variables c) (request d) with
  | (Returns v, r1) =>
      (Normal tt,
       extend d
         (set_granted
            (Some (filterHandler this (variables c) r1 (strict_equals_true v)
                   && strict_equals_true v)) r1)
         [call_event c (request d)])
  | (Throws e, r1) =>
      (Normal tt,
       extend d (set_granted (Some false) (set_error (Some e) r1))
         (call_event c (request d)
          :: notifications Types.Error (set_error (Some e) r1) (loggers this)))
  end.
Proof.
  intros Hc. unfold next, call_event. rewrite Hc. simpl. unfold bind at 1.
  rewrite performHandler_eq.
  destruct (construct_and_call h ps m (variables c) (request d))
    as [[v|e] r1]; unfold bind, gets, update_request, modify; simpl; [done|].
  by rewrite andb_false_r.
Qed.

(** X5 (what a filter turn writes). One turn of the filter loop overwrites
    [granted], whatever it was and whatever the handler did to it: with the
    hook's answer when the handler returned exactly [true], and with [false]
    otherwise (any other value, truthy or not, or an exception). The hook
    can withdraw a grant but cannot turn a denial into one. *)
Theorem filter_turn_verdict this seed local_ c h m ps d :
  candidate_onMatch c = FilterOnMatch h m ps ->
  exists d1,
    performFilters_body this seed local_ c d = (Normal tt, d1)
    /\ granted (request d1)
       = match construct_and_call h ps m (variables c)
                 (set_local (object_spread [seed; variables c; local_])
                    (request d)) with
         | (Returns (VBool true), r1) =>
             Some (filterHandler this (variables c) r1 true)
         | _ => Some false
         end.
Proof.
  intros Hc.
  unfold performFilters_body, bind at 1, update_request at 1, modify.
  set (d0 := {| request := set_local _ (request d);
                dispatch_log := dispatch_log d |}).
  unfold bind at 1. rewrite (next_filter_eq this c h m ps d0 Hc).
  change (request d0)
    with (set_local (object_spread [seed; variables c; local_]) (request d)).
  destruct (construct_and_call h ps m (variables c) _) as [[v|e] r1];
    unfold update_request, modify; eexists; (split; [done|]); simpl; [|done].
  destruct v as [|[]| | |]; simpl; by rewrite ?andb_true_r, ?andb_false_r.
Qed.

Lemma filter_turn_verdict_witness :
  exists d1,
    performFilters_body (this denying_app) ∅ {["user" := VStr "ann"]}
      deny_candidate (incoming (request_for "/a" (Some true)))
    = (Normal tt, d1)
    /\ granted (request d1) = Some false.
Proof.
  apply (filter_turn_verdict (this denying_app) ∅ {["user" := VStr "ann"]}
           deny_candidate Gate "deny" []
           (incoming (request_for "/a" (Some true)))).
  reflexivity.
Defined.









(** X18 (a processor can end the chain). [granted] is consulted again
    before every processor: when the turn of a processor leaves it not true
    (the handler cleared it), the processor loop ends there and no later
    processor, nor any filter for it, is advanced. *)
Theorem processor_revoking_access_ends_dispatch this local_ p rest d d1 d2 :
  performFilters this (variables p) d = (Normal true, d1) ->
  receiveHandler_body this local_ p d1 = (Normal tt, d2) ->
  truthy (granted (request d2)) = false ->
  receiveHandler_loop this local_ (p :: rest) d = (Normal tt, d2).
Proof.
  intros Hpass Hturn Hrevoked.
  rewrite receiveHandler_loop_cons, Hpass.
  rewrite (bind_normal _ _ _ _ _ Hturn).
  by apply receiveHandler_loop_denied.
Qed.

Lemma processor_revoking_access_ends_dispatch_witness :
  let d := incoming (request_for "/a" (Some true)) in
  let local_ : Variables := {["user" := VStr "ann"]} in
  let d2 := snd (receiveHandler_body (this revoking_app) local_
                   revoke_candidate d) in
  handler_calls (dispatch_log d2) = [call_of revoke_candidate]
  /\ receiveHandler_loop (this revoking_app) local_
       [revoke_candidate; view_candidate] d = (Normal tt, d2).
Proof.
  intros d local_ d2. split; [vm_compute; reflexivity|].
  apply (processor_revoking_access_ends_dispatch (this revoking_app) local_
           revoke_candidate [view_candidate] d d d2);
    vm_compute; reflexivity.
Defined.

(** X8 (no processor, no filter). A request whose path matches no
    processor route is never shown to a filter: the dispatch consists of the
    [Receive] and [Process] notifications and leaves the request as it
    arrived, whatever filters match the path. *)
Theorem no_processor_no_filter this d :
  Router_match (processors this) (path (request d)) = [] ->
  receiveHandler this d
  = (Normal tt,
     {| request := request d;
        dispatch_log :=
          dispatch_log d ++
          map (fun l => LoggerOnReceive l (request d)) (loggers this) ++
          map (fun l => LoggerOnProcess l (request d)) (loggers this) |}).
Proof.
  intros Hm. unfold receiveHandler. unfold bind at 1, gets. unfold bind at 1.
  rewrite notifyRequest_supported by done.
  unfold bind at 1. unfold bind at 1. simpl path. rewrite Hm. simpl.
  unfold bind at 1, ret. rewrite notify_current by done.
  unfold extend; simpl. by rewrite <- app_assoc.
Qed.

Lemma no_processor_no_filter_witness :
  Router_match (filters (this denying_app)) "/a/b"
  = [deny_candidate; allow_candidate]
  /\ receiveHandler (this denying_app) (incoming (request_for "/a/b" None))
     = (Normal tt,
        {| request := request_for "/a/b" None;
           dispatch_log :=
             [LoggerOnReceive console (request_for "/a/b" None);
              LoggerOnProcess console (request_for "/a/b" None)] |}).
Proof.
  split; [vm_compute; reflexivity|].
  apply (no_processor_no_filter (this denying_app)
           (incoming (request_for "/a/b" None))).
  vm_compute; reflexivity.
Defined.

(** * Further properties of the route table and of configuration *)

(** X9 (a decorator registers or rejects). On a method member,
    [Main.Filter] and [Main.Processor] append a route of their kind, with
    the action and the member's name, to the list of the member's class,
    creating the list when the class has none; the lists of other classes,
    the application and the log stay as they are. On a member whose
    descriptor holds no function (an accessor) they throw their own type
    error, and on a member without descriptor (a field) the engine's type
    error for reading [value] of [undefined] is raised first; in both cases
    nothing is registered. *)
Theorem decorator_registers_or_rejects action_ handler property w h :
  Filter action_ handler property NoDescriptor w
  = (Thrown (JsReadOfUndefined "value"), w)
  /\ Processor action_ handler property NoDescriptor w
     = (Thrown (JsReadOfUndefined "value"), w)
  /\ Filter action_ handler property (ValueDescriptor false) w
     = (Thrown (JsTypeError "Only methods are allowed as filters."), w)
  /\ Processor action_ handler property (ValueDescriptor false) w
     = (Thrown (JsTypeError "Only methods are allowed as processors."), w)
  /\ (exists w',
        Filter action_ handler property (ValueDescriptor true) w
        = (Normal tt, w')
        /\ this w' = this w /\ runtime_log w' = runtime_log w
        /\ Main_routes w' !! h
           = if decide (constructor_id handler = h)
             then Some (default [] (Main_routes w !! h)
                        ++ [{| type := Types.Filter; action := action_;
                               method := property |}])
             else Main_routes w !! h)
  /\ (exists w',
        Processor action_ handler property (ValueDescriptor true) w
        = (Normal tt, w')
        /\ this w' = this w /\ runtime_log w' = runtime_log w
        /\ Main_routes w' !! h
           = if decide (constructor_id handler = h)
             then Some (default [] (Main_routes w !! h)
                        ++ [{| type := Types.Processor; action := action_;
                               method := property |}])
             else Main_routes w !! h).
Proof.
  split_and!; [done|done|done|done|..];
    (eexists; split; [done|]; simpl; split_and!; [done|done|]);
    rewrite lookup_insert; by case_decide; subst.
Qed.

(** X10 (decorations accumulate in declaration order). Decorating several
    methods of a class one after the other leaves, for that class, the routes
    it had followed by one route per decoration, in the order of the
    decorations; no other class's list, nor the application, is touched. *)
Theorem decorations_accumulate handler xs w h :
  let w' := configure (map (decorate handler) xs) w in
  this w' = this w
  /\ runtime_log w' = runtime_log w
  /\ default [] (Main_routes w' !! constructor_id handler)
     = default [] (Main_routes w !! constructor_id handler)
       ++ map decoration_route xs
  /\ (h = constructor_id handler \/ Main_routes w' !! h = Main_routes w !! h).
Proof.
  revert w. induction xs as [|[[k a] m] xs IH]; intros w; simpl.
  - rewrite app_nil_r. split_and!; auto.
  - unfold configure in *. simpl.
    destruct (IH (snd (decorate handler (k, a, m) w)))
      as (Hthis & Hlog & Hroutes & Hother).
    rewrite Hthis, Hlog, Hroutes.
    assert (this (snd (decorate handler (k, a, m) w)) = this w
            /\ runtime_log (snd (decorate handler (k, a, m) w))
               = runtime_log w
            /\ Main_routes (snd (decorate handler (k, a, m) w))
               = <[constructor_id handler :=
                     default [] (Main_routes w !! constructor_id handler)
                     ++ [decoration_route (k, a, m)]]> (Main_routes w))
      as (-> & -> & Hins) by (by destruct k).
    rewrite Hins, lookup_insert_eq. simpl. rewrite <- app_assoc.
    split_and!; [done|done|done|].
    destruct (decide (h = constructor_id handler)) as [->|Hne]; [by left|].
    right. destruct Hother as [?| ->]; [done|].
    rewrite Hins. by rewrite lookup_insert_ne.
Qed.

(** X11 (a class without routes). [addHandler] on a stopped application,
    for a class no member of which was decorated, returns normally and
    changes nothing: a missing entry of the route table reads as the empty
    list. *)
Theorem addHandler_without_routes handler parameters w :
  started (this w) = false ->
  Main_routes w !! constructor_id handler = None ->
  addHandler handler parameters w = (Normal tt, w).
Proof.
  intros Hs Hnone. rewrite addHandler_stopped; rewrite ?Hnone; simpl.
  - by destruct w.
  - done.
  - constructor.
Qed.

Lemma addHandler_without_routes_witness :
  addHandler Page [VStr "db"] decorated = (Normal tt, decorated).
Proof.
  apply (addHandler_without_routes Page [VStr "db"] decorated); reflexivity.
Defined.

Lemma install_route_frame handler parameters routes m :
  let m' := foldl (install_route handler parameters) m routes in
  entries (filters m')
  = entries (filters m)
    ++ map (fun r => filter_entry r handler parameters)
         (List.filter is_filter routes)
  /\ entries (processors m')
     = entries (processors m)
       ++ map (fun r => processor_entry r handler parameters)
            (List.filter is_processor routes)
  /\ started m' = started m
  /\ services m' = services m
  /\ loggers m' = loggers m.
Proof.
  revert m. induction routes as [|r routes IH]; intros m; simpl.
  - by rewrite !app_nil_r.
  - destruct (IH (install_route handler parameters m r))
      as (-> & -> & -> & -> & ->).
    unfold install_route, is_filter, is_processor.
    destruct (type r); simpl; rewrite <- ?app_assoc; done.
Qed.

(** X12 (what [addHandler] installs and what it leaves alone). On a stopped
    application, every filter route of the class becomes an entry of the
    filters router whose callback calls the route's method on an instance
    built with the parameters given to [addHandler], every processor route
    an entry of the processors router likewise, in route order after the
    entries already there; the started flag, the services, the loggers, the
    route table and the log are unchanged. *)
Theorem addHandler_installs_callbacks handler parameters w :
  started (this w) = false ->
  Forall (fun r => type r = Types.Filter \/ type r = Types.Processor)
    (default [] (Main_routes w !! constructor_id handler)) ->
  exists w',
    addHandler handler parameters w = (Normal tt, w')
    /\ entries (filters (this w'))
       = entries (filters (this w))
         ++ map (fun r =>
                   {| settings := action r;
                      onMatch := FilterOnMatch handler (method r)
                                   parameters |})
              (List.filter is_filter
                 (default [] (Main_routes w !! constructor_id handler)))
    /\ map onMatch (entries (processors (this w')))
       = map onMatch (entries (processors (this w)))
         ++ map (fun r => ProcessorOnMatch handler (method r) parameters)
              (List.filter is_processor
                 (default [] (Main_routes w !! constructor_id handler)))
    /\ started (this w') = false
    /\ services (this w') = services (this w)
    /\ loggers (this w') = loggers (this w)
    /\ Main_routes w' = Main_routes w
    /\ runtime_log w' = runtime_log w.
Proof.
  intros Hs Hroutes. rewrite addHandler_stopped by done.
  eexists. split; [done|]. simpl.
  destruct (install_route_frame handler parameters
              (default [] (Main_routes w !! constructor_id handler)) (this w))
    as (-> & -> & -> & -> & ->).
  split_and!; try done.
  rewrite map_app, map_map. done.
Qed.

Lemma addHandler_installs_callbacks_witness :
  exists w',
    addHandler Gate [VNum 3] decorated = (Normal tt, w')
    /\ map onMatch (entries (filters (this w')))
       = [FilterOnMatch Gate "allow" [VNum 3]]
    /\ map onMatch (entries (processors (this w')))
       = [ProcessorOnMatch Gate "view" [VNum 3];
          ProcessorOnMatch Gate "list" [VNum 3]].
Proof.
  destruct (addHandler_installs_callbacks Gate [VNum 3] decorated)
    as (w' & Hadd & Hf & Hp & _).
  - reflexivity.
  - apply routes_supported_lookup, decorated_supported.
  - exists w'. split_and!; [exact Hadd| |exact Hp].
    rewrite Hf. reflexivity.
Defined.

(** X14 (a logger added is notified last). [addLogger] on a stopped
    application returns the instance it registered (built from the
    parameters when a class was given); from then on every supported request
    notification reaches the loggers registered before, in their order, and
    then the new one. *)
Theorem added_logger_notified_last logger parameters w type_ d :
  started (this w) = false ->
  supported type_ = true ->
  exists l w',
    addLogger logger parameters w = (Normal l, w')
    /\ l = match logger with
           | inl new_logger => new_logger parameters
           | inr instance => instance
           end
    /\ (let* request_ := gets request in
        notifyRequest (this w') type_ request_) d
       = (Normal tt,
          {| request := request d;
             dispatch_log :=
               dispatch_log d
               ++ notifications type_ (request d) (loggers (this w))
               ++ notifications type_ (request d) [l] |}).
Proof.
  intros Hs Hsup. unfold addLogger, bind at 1, gets at 1. rewrite Hs.
  unfold bind at 1, update_this, modify, ret. eexists _, _.
  split; [done|]. split; [done|].
  rewrite notify_current by done. simpl.
  unfold extend. do 2 f_equal.
  destruct type_; try done; simpl; by rewrite map_app.
Qed.

Lemma added_logger_notified_last_witness :
  exists l w',
    addLogger (inl (fun ps => {| logger_name := "audit" |})) [] decorated
    = (Normal l, w')
    /\ l = {| logger_name := "audit" |}
    /\ (let* request_ := gets request in
        notifyRequest (this w') Types.Error request_)
         (incoming (request_for "/a" None))
       = (Normal tt,
          {| request := request_for "/a" None;
             dispatch_log :=
               [LoggerOnError {| logger_name := "audit" |}
                  (request_for "/a" None)] |}).
Proof.
  destruct (added_logger_notified_last
              (inl (fun ps => {| logger_name := "audit" |})) [] decorated
              Types.Error (incoming (request_for "/a" None)) eq_refl eq_refl)
    as (l & w' & Hadd & Hl & Hnotify).
  exists l, w'. split_and!; [exact Hadd|exact Hl|].
  rewrite Hnotify, Hl. reflexivity.
Defined.

(** X15 (a service added is wired at the next start). [addService] on a
    stopped application followed by [start] succeeds: the loggers are told
    first, then every service registered earlier and finally the new one gets
    the receive, send and error listeners subscribed, in that order, and is
    started right after; the application is then started. *)
Theorem added_service_started_last service parameters w :
  started (this w) = false ->
  exists s w1 w2,
    addService service parameters w = (Normal s, w1)
    /\ s = match service with
           | inl new_service => new_service parameters
           | inr instance => instance
           end
    /\ start w1 = (Normal tt, w2)
    /\ started (this w2) = true
    /\ services (this w2) = services (this w) ++ [s]
    /\ runtime_log w2
       = runtime_log w
         ++ map LoggerOnStart (loggers (this w))
         ++ concat (map start_service (services (this w)))
         ++ [Subscribe s OnReceiveChannel; Subscribe s OnSendChannel;
             Subscribe s OnErrorChannel; ServiceStart s].
Proof.
  intros Hs. unfold addService, bind at 1, gets. rewrite Hs.
  unfold bind, update_this, modify, ret. eexists _, _, _.
  split; [done|]. split; [done|].
  rewrite start_stopped by done. simpl.
  split_and!; [done|done|done|].
  simpl. by rewrite map_app, concat_app.
Qed.

Lemma added_service_started_last_witness :
  exists s w1 w2,
    addService (inr http) [] open_app = (Normal s, w1)
    /\ start w1 = (Normal tt, w2)
    /\ runtime_log w2
       = [LoggerOnStart console;
          Subscribe http OnReceiveChannel; Subscribe http OnSendChannel;
          Subscribe http OnErrorChannel; ServiceStart http].
Proof.
  destruct (added_service_started_last (inr http) [] open_app eq_refl)
    as (s & w1 & w2 & Hadd & Hs & Hstart & _ & _ & Hlog).
  exists s, w1, w2. split_and!; [exact Hadd|exact Hstart|].
  rewrite Hlog, Hs. reflexivity.
Defined.

Lemma set_started_round_trip m :
  started m = false -> set_started false (set_started true m) = m.
Proof. destruct m; simpl; by intros ->. Qed.

(** X16 (start then stop). On a stopped application [start] followed by
    [stop] succeeds and gives back the application as it was (stopped, same
    services, loggers and routers) and the route table; in between, the
    loggers were told of the start, every service was subscribed and
    started, then every service was stopped and unsubscribed, all in
    registration order, and the loggers were told of the stop last. *)
Theorem start_then_stop w :
  started (this w) = false ->
  exists w1 w2,
    start w = (Normal tt, w1)
    /\ started (this w1) = true
    /\ stop w1 = (Normal tt, w2)
    /\ this w2 = this w
    /\ Main_routes w2 = Main_routes w
    /\ runtime_log w2
       = runtime_log w
         ++ map LoggerOnStart (loggers (this w))
         ++ concat (map start_service (services (this w)))
         ++ concat (map stop_service (services (this w)))
         ++ map LoggerOnStop (loggers (this w)).
Proof.
  intros Hs. rewrite start_stopped by done. eexists _, _.
  split; [done|]. split; [done|].
  rewrite stop_started by done. simpl.
  split_and!; [done|by apply set_started_round_trip|done|].
  by rewrite <- !app_assoc.
Qed.

Lemma start_then_stop_witness :
  exists w1 w2,
    start open_app = (Normal tt, w1)
    /\ stop w1 = (Normal tt, w2)
    /\ this w2 = this open_app
    /\ runtime_log w2 = [LoggerOnStart console; LoggerOnStop console].
Proof.
  destruct (start_then_stop open_app eq_refl)
    as (w1 & w2 & Hstart & _ & Hstop & Hthis & _ & Hlog).
  exists w1, w2. split_and!; [exact Hstart|exact Hstop|exact Hthis|].
  rewrite Hlog. reflexivity.
Defined.

(** X17 ([addHandler] does not deduplicate). Adding the same class twice to
    a stopped application installs each of its filter routes twice: the
    filters router ends with the callbacks of the first call followed by
    those of the second, each bound to the parameters of its own call. *)
Theorem addHandler_twice handler parameters parameters' w :
  started (this w) = false ->
  Forall (fun r => type r = Types.Filter \/ type r = Types.Processor)
    (default [] (Main_routes w !! constructor_id handler)) ->
  exists w1 w2,
    addHandler handler parameters w = (Normal tt, w1)
    /\ addHandler handler parameters' w1 = (Normal tt, w2)
    /\ map onMatch (entries (filters (this w2)))
       = map onMatch (entries (filters (this w)))
         ++ map (fun r => FilterOnMatch handler (method r) parameters)
              (List.filter is_filter
                 (default [] (Main_routes w !! constructor_id handler)))
         ++ map (fun r => FilterOnMatch handler (method r) parameters')
              (List.filter is_filter
                 (default [] (Main_routes w !! constructor_id handler))).
Proof.
  intros Hs Hroutes.
  set (routes := default [] (Main_routes w !! constructor_id handler)) in *.
  set (m1 := foldl (install_route handler parameters) (this w) routes).
  set (w1 := {| Main_routes := Main_routes w; this := m1;
                runtime_log := runtime_log w |}).
  destruct (install_route_frame handler parameters routes (this w))
    as (Hf1 & _ & Hs1 & _).
  destruct (install_route_frame handler parameters' routes m1)
    as (Hf2 & _).
  exists w1,
    {| Main_routes := Main_routes w;
       this := foldl (install_route handler parameters') m1 routes;
       runtime_log := runtime_log w |}.
  split_and!.
  - by apply addHandler_stopped.
  - apply (addHandler_stopped handler parameters' w1); [|done].
    simpl. unfold m1. by rewrite Hs1.
  - simpl. rewrite Hf2. unfold m1. rewrite Hf1.
    by rewrite !map_app, !map_map, <- app_assoc.
Qed.

Lemma addHandler_twice_witness :
  exists w1 w2,
    addHandler Gate [VNum 1] decorated = (Normal tt, w1)
    /\ addHandler Gate [VNum 2] w1 = (Normal tt, w2)
    /\ map onMatch (entries (filters (this w2)))
       = [FilterOnMatch Gate "allow" [VNum 1];
          FilterOnMatch Gate "allow" [VNum 2]].
Proof.
  destruct (addHandler_twice Gate [VNum 1] [VNum 2] decorated)
    as (w1 & w2 & Hadd1 & Hadd2 & Hf).
  - reflexivity.
  - apply routes_supported_lookup, decorated_supported.
  - exists w1, w2. split_and!; [exact Hadd1|exact Hadd2|].
    rewrite Hf. reflexivity.
Defined.
